(** * Sourcify verification controller: session file store, candidate
      assembly and the verification pass.

    A shallow embedding of [src/server/controllers/VerificationController.ts].
    JavaScript objects used as maps are association lists in insertion order
    (the order in which [for ... in] and [Object.values] visit string keys
    that are not array indices; the keys here are content hashes and
    addresses);
    the two external collaborators (validation service, verification service)
    are functions over an abstract [World], and every call to them is
    recorded in a trace so that statements about "is called", "is called at
    most twice" and "is not called" are statements about that trace. *)

From Stdlib Require Import Ascii String List NArith Bool Lia.
Import ListNotations.
Open Scope string_scope.
Open Scope list_scope.

(** ** JavaScript values *)

(** A thrown value: the error class and its [message]. *)
Inductive ErrorClass :=
| PayloadTooLargeError
| BadRequestError
| ValidationError
| TypeError
| ServiceError.

Record JsError := mkError { err_class : ErrorClass; err_message : string }.

(** The outcome of a call that may throw. *)
Inductive Result (A : Type) :=
| Ok (a : A)
| Throw (e : JsError).
Arguments Ok {A} a.
Arguments Throw {A} e.

(** [Boolean(x)] for [x : string | undefined]. *)
Definition truthy (x : option string) : bool :=
  match x with
  | Some s => negb (String.eqb s "")
  | None => false
  end.

(** [x || d] for [x : string | null | undefined]. *)
Definition orElse (x : option string) (d : string) : string :=
  if truthy x then match x with Some s => s | None => d end else d.

(** [x === s] for [x : string | null | undefined]. *)
Definition statusIs (x : option string) (s : string) : bool :=
  match x with
  | Some t => String.eqb t s
  | None => false
  end.

(** ** Objects used as maps

    String keys, insertion order, no duplicate keys: [set] on a present key
    replaces the value in place, on an absent key appends. *)
Module JsObj.

Definition t (V : Type) := list (string * V).

Fixpoint get {V} (k : string) (o : t V) : option V :=
  match o with
  | [] => None
  | (k', v) :: r => if String.eqb k k' then Some v else get k r
  end.

(** [k in o] *)
Definition has {V} (k : string) (o : t V) : bool :=
  match get k o with Some _ => true | None => false end.

(** [o[k] = v] *)
Fixpoint set {V} (k : string) (v : V) (o : t V) : t V :=
  match o with
  | [] => [(k, v)]
  | (k', v') :: r =>
      if String.eqb k k' then (k, v) :: r else (k', v') :: set k v r
  end.

(** [delete o[k]] *)
Fixpoint del {V} (k : string) (o : t V) : t V :=
  match o with
  | [] => []
  | (k', v') :: r =>
      if String.eqb k k' then del k r else (k', v') :: del k r
  end.

(** [Object.keys(o)], [Object.values(o)] *)
Definition keys {V} (o : t V) : list string := map fst o.
Definition values {V} (o : t V) : list V := map snd o.

(** [isEmpty(o)] *)
Definition isEmpty {V} (o : t V) : bool :=
  match o with [] => true | _ => false end.

End JsObj.

(** ** Data model *)

(** A buffer of raw bytes. *)
Definition Buffer := string.

(** [PathContent]: a file as the session stores it, [content] in base64. *)
Record PathContent := mkPathContent { path : string; content : string }.

(** [PathBuffer]: a file as the services take it. *)
Record PathBuffer := mkPathBuffer { pb_path : string; buffer : Buffer }.

(** [Match]: the verdict of the verification service. *)
Record Match := mkMatch {
  match_status : option string;
  match_address : option string;
  match_message : option string;
  match_storageTimestamp : option N
}.

(** [CheckedContract]: the fields this controller reads or writes. *)
Record CheckedContract := mkCheckedContract {
  metadataRaw : string;
  name : string;
  compilerVersion : option string;
  solidity : JsObj.t string;
  missing : JsObj.t string;
  invalid : JsObj.t string
}.

(** [ContractWrapper]: a contract with the verification target and the
    outcome of the last attempt; a fresh wrapper [{ contract }] has every
    other field undefined. *)
Record ContractWrapper := mkContractWrapper {
  contract : CheckedContract;
  address : option string;
  chainId : option string;
  status : option string;
  statusMessage : option string;
  storageTimestamp : option N
}.

Definition freshWrapper (c : CheckedContract) : ContractWrapper :=
  mkContractWrapper c None None None None None.

Definition ContractWrapperMap := JsObj.t ContractWrapper.

(** [MySession]: each field is undefined until first written. *)
Record MySession := mkSession {
  inputFiles : option (JsObj.t PathContent);
  contractWrappers : option ContractWrapperMap;
  unusedSources : option (list string)
}.

(** [InputData]: what [inject] is called with. *)
Record InputData := mkInputData {
  addresses : list (option string);
  chain : option string;
  input_contract : CheckedContract
}.

(** [SendableContract]: the fields [verifyValidatedEndpoint] reads. *)
Record SendableContract := mkSendable {
  verificationId : string;
  sc_address : option string;
  sc_chainId : option string
}.

(** The files a session holds, an undefined store read as empty (what
    [for (const id in session.inputFiles)] visits). *)
Definition storedFiles (s : MySession) : JsObj.t PathContent :=
  match inputFiles s with Some o => o | None => [] end.

(** The candidates a session holds, an undefined map read as empty. *)
Definition storedWrappers (s : MySession) : ContractWrapperMap :=
  match contractWrappers s with Some o => o | None => [] end.

Definition setInputFiles (s : MySession) (o : JsObj.t PathContent) : MySession :=
  mkSession (Some o) (contractWrappers s) (unusedSources s).

Definition setContractWrappers (s : MySession) (o : ContractWrapperMap) : MySession :=
  mkSession (inputFiles s) (Some o) (unusedSources s).

(** [content.length] of a stored file. *)
Definition contentLength (pc : PathContent) : N :=
  N.of_nat (String.length (content pc)).

(** [static readonly MAX_SESSION_SIZE = 50 * 1024 * 1024] *)
Definition MAX_SESSION_SIZE : N := 50 * 1024 * 1024.

Definition sizeMessage : string :=
  "Too much session memory used. Delete some files or clear the session.".

(** ** Collaborators

    The interfaces the controller is constructed with, and what it imports.
    [World] is the state outside the process (the repository of verified
    contracts, the network); a call that can change it returns the world
    after the call. *)

(** Pure helpers imported from [VerificationController-util], [core] and
    [Buffer]. *)
Class Util := {
  (** the content hash [generateId] *)
  generateId : string -> string;
  (** the verifiability gate [isVerifiable] *)
  isVerifiable : ContractWrapper -> bool;
  (** [CheckedContract.isValid(contract, ignoreMissing)] *)
  isValid : CheckedContract -> bool -> bool;
  (** [Buffer.from(s, FILE_ENCODING)] *)
  bufferFrom : string -> Buffer;
  (** [buffer.toString(FILE_ENCODING)] *)
  bufferToString : Buffer -> string;
  (** [Buffer.from(s, "utf8").toString("base64")] *)
  stringToBase64 : string -> string
}.

(** [IVerificationService] *)
Class IVerificationService (World : Type) := {
  (** a synchronous read of the stored perfect matches *)
  findByAddress : World -> option string -> option string -> Result (list Match);
  (** a synchronous read of the stored perfect and partial matches *)
  findAllByAddress : World -> string -> string -> Result (list Match);
  inject : World -> InputData -> World * Result Match
}.

(** [IValidationService]; [checkFiles] also fills the [unused] array it is
    handed, returned here beside the contracts. *)
Class IValidationService (World : Type) := {
  checkFiles : World -> list PathBuffer ->
               World * Result (list CheckedContract * list string);
  useAllSources : World -> CheckedContract -> list PathBuffer ->
                  World * Result CheckedContract
}.

(** What is fetched over the network. [fetchMissing] mutates the contract
    it is given and may fail half-way: the contract after the call is
    returned either way (the controller swallows the failure). The
    Etherscan request yields the source paths with their contents and the
    stringified metadata. *)
Class Remote (World : Type) := {
  fetchMissing : World -> CheckedContract -> World * CheckedContract;
  processRequestFromEtherscan :
    World -> string -> string ->
    World * Result (list (string * string) * string)
}.

(** Calls to the collaborators, in the order they were made, and with them
    what else a handler does outside the session: the assignments of an
    address and a chain id that land on an object inherited from
    [Object.prototype] under [name], which every object of the process
    shares from then on. *)
Inductive Event :=
| EvCheckFiles (files : list PathBuffer)
| EvFetchMissing (c : CheckedContract)
| EvFindByAddress (a c : option string)
| EvInject (d : InputData)
| EvUseAllSources (c : CheckedContract) (files : list PathBuffer)
| EvEtherscan (chain address : string)
| EvWriteInherited (name : string) (a c : option string).

Definition isInject (e : Event) : bool :=
  match e with EvInject _ => true | _ => false end.

(** How many times [inject] was called in a trace. *)
Definition injectCalls (tr : list Event) : nat :=
  length (filter isInject tr).

(** ** saveFiles *)
Section FileStore.
Context {U : Util}.

(** [if (!session.inputFiles) session.inputFiles = {}] *)
Definition initInputFiles (s : MySession) : MySession :=
  match inputFiles s with
  | Some _ => s
  | None => setInputFiles s []
  end.

(** The running total of [inputSize += pc.content.length]. *)
Definition addSizes (acc : N) (pcs : list PathContent) : N :=
  fold_left (fun n pc => (n + contentLength pc)%N) pcs acc.

(** The body of the second [forEach]: store [pc] unless its id is taken. *)
Definition saveOne (acc : JsObj.t PathContent * N) (pc : PathContent)
  : JsObj.t PathContent * N :=
  let newId := generateId (content pc) in
  if JsObj.has newId (fst acc) then acc
  else (JsObj.set newId pc (fst acc), (snd acc + 1)%N).

(** [saveFiles(pathContents, session)]: the session after the call and the
    count returned, or the error thrown. *)
Definition saveFiles (pathContents : list PathContent) (session : MySession)
  : MySession * Result N :=
  let session := initInputFiles session in
  let inputSize := addSizes 0%N (JsObj.values (storedFiles session)) in
  let inputSize := addSizes inputSize pathContents in
  if (MAX_SESSION_SIZE <? inputSize)%N then
    (session, Throw (mkError PayloadTooLargeError sizeMessage))
  else
    let r := fold_left saveOne pathContents (storedFiles session, 0%N) in
    (setInputFiles session (fst r), Ok (snd r)).

End FileStore.

(** ** The state a request runs in *)

(** The world outside, the calls made so far, and the session object every
    operation mutates in place. A [ContractWrapperMap] handed around beside
    the session (the [verifiable] maps of the endpoints) holds references to
    the session's own wrappers: it is modelled by its keys, and a write
    through it is a write to the session's entry. *)
Record State (World : Type) := mkState {
  world : World;
  trace : list Event;
  session : MySession
}.
Arguments mkState {World} world trace session.
Arguments world {World} s.
Arguments trace {World} s.
Arguments session {World} s.

Definition setSession {World} (st : State World) (s : MySession) : State World :=
  mkState (world st) (trace st) s.

(** [session.contractWrappers[id] = cw], the map being defined. *)
Definition putWrapper (s : MySession) (id : string) (cw : ContractWrapper)
  : MySession :=
  setContractWrappers s (JsObj.set id cw (storedWrappers s)).

Definition setContract (cw : ContractWrapper) (c : CheckedContract)
  : ContractWrapper :=
  mkContractWrapper c (address cw) (chainId cw) (status cw)
    (statusMessage cw) (storageTimestamp cw).

(** [cw.address = a; cw.chainId = c] *)
Definition setTarget (cw : ContractWrapper) (a c : option string)
  : ContractWrapper :=
  mkContractWrapper (contract cw) a c (status cw) (statusMessage cw)
    (storageTimestamp cw).

(** The three assignments that close an iteration of [verifyValidated]. *)
Definition recordMatch (cw : ContractWrapper) (m : Match) : ContractWrapper :=
  mkContractWrapper (contract cw) (address cw) (chainId cw)
    (Some (orElse (match_status m) "error"))
    (match_message m)
    (match_storageTimestamp m).

(** [contract.solidity = sol; contract.missing = mis] *)
Definition setSources (c : CheckedContract) (sol mis : JsObj.t string)
  : CheckedContract :=
  mkCheckedContract (metadataRaw c) (name c) (compilerVersion c) sol mis
    (invalid c).

(** Modelled from the spec: [updateUnused] of [VerificationController-util],
    which is not among the sources ("the session tracks these separately so
    users can be told which uploads were ignored"): the paths become the
    session's unused list and nothing else of the session changes. *)
Definition updateUnused (unused : list string) (s : MySession) : MySession :=
  mkSession (inputFiles s) (contractWrappers s) (Some unused).

(** ** validateContracts *)
Section Assembly.
Context {U : Util} {World : Type} {VAL : IValidationService World}.

Definition toPathBuffer (pc : PathContent) : PathBuffer :=
  mkPathBuffer (path pc) (bufferFrom (content pc)).

(** The [pathBuffers] built from [session.inputFiles]. *)
Definition sessionPathBuffers (s : MySession) : list PathBuffer :=
  map toPathBuffer (JsObj.values (storedFiles s)).

(** [newPendingContracts[generateId(contract.metadataRaw)] = { contract }] *)
Definition pendingContracts (contracts : list CheckedContract)
  : ContractWrapperMap :=
  fold_left
    (fun acc c => JsObj.set (generateId (metadataRaw c)) (freshWrapper c) acc)
    contracts [].

(** The inner loop over [newContractWrapper.contract.solidity]: copy the
    path into the old contract's [solidity], delete it from its [missing]. *)
Definition copyResolved (newC oldC : CheckedContract) : CheckedContract :=
  fold_left
    (fun old pv =>
       setSources old (JsObj.set (fst pv) (snd pv) (solidity old))
                      (JsObj.del (fst pv) (missing old)))
    (solidity newC) oldC.

(** The branch taken when a wrapper with the new id exists: the copy loop,
    then the two assignments that replace [solidity] and [missing]. *)
Definition mergeWrapper (old new : ContractWrapper) : ContractWrapper :=
  let old1 := setContract old (copyResolved (contract new) (contract old)) in
  setContract old1
    (setSources (contract old1) (solidity (contract new))
                                (missing (contract new))).

(** One iteration of [for (const newId in newPendingContracts)]. *)
Definition mergeOne (ws : ContractWrapperMap) (kv : string * ContractWrapper)
  : ContractWrapperMap :=
  match JsObj.get (fst kv) ws with
  | Some old => JsObj.set (fst kv) (mergeWrapper old (snd kv)) ws
  | None => JsObj.set (fst kv) (snd kv) ws
  end.

(** [validateContracts(session)]; it catches whatever [checkFiles] throws. *)
Definition validateContracts (st : State World) : State World :=
  let pathBuffers := sessionPathBuffers (session st) in
  let tr := trace st ++ [EvCheckFiles pathBuffers] in
  match checkFiles (world st) pathBuffers with
  | (w, Ok (contracts, unused)) =>
      let newPendingContracts := pendingContracts contracts in
      let ws := fold_left mergeOne newPendingContracts
                  (storedWrappers (session st)) in
      mkState w tr (updateUnused unused (setContractWrappers (session st) ws))
  | (w, Throw _) =>
      mkState w tr (updateUnused (map pb_path pathBuffers) (session st))
  end.

End Assembly.

(** ** verifyValidated *)
Section Orchestrator.
Context {U : Util} {World : Type}
        {VER : IVerificationService World}
        {VAL : IValidationService World}
        {NET : Remote World}.

(** [checkAndFetchMissing(contract)]: the contract after the call. A
    failure of [fetchMissing] is logged and swallowed. *)
Definition checkAndFetchMissing (c : CheckedContract) (w : World)
  (tr : list Event) : World * list Event * CheckedContract :=
  if negb (isValid c false) then
    let r := fetchMissing w c in
    (fst r, tr ++ [EvFetchMissing c], snd r)
  else (w, tr, c).

(** The [match] built in the [catch] clause. *)
Definition errorMatch (e : JsError) : Match :=
  mkMatch None None (Some (err_message e)) None.

Definition undefinedInputFiles : JsError :=
  mkError TypeError "Cannot convert undefined or null to object".

(** The [else] branch of [if (found.length)]: the [try] block with its
    [catch]. [files] is [session.inputFiles]. *)
Definition injectWithRetry (w : World) (tr : list Event)
  (inputData : InputData) (files : option (JsObj.t PathContent))
  : World * list Event * Match :=
  let tr1 := tr ++ [EvInject inputData] in
  match inject w inputData with
  | (w1, Throw e) => (w1, tr1, errorMatch e)
  | (w1, Ok m) =>
      if statusIs (match_status m) "extra-file-input-bug" then
        match files with
        | None => (w1, tr1, errorMatch undefinedInputFiles)
        | Some o =>
            let pathBufferInputFiles := map toPathBuffer (JsObj.values o) in
            let tr2 := tr1 ++ [EvUseAllSources (input_contract inputData)
                                                pathBufferInputFiles] in
            match useAllSources w1 (input_contract inputData)
                    pathBufferInputFiles with
            | (w2, Throw e) => (w2, tr2, errorMatch e)
            | (w2, Ok contractWithAllSources) =>
                let retryData :=
                  mkInputData (addresses inputData) (chain inputData)
                              contractWithAllSources in
                let tr3 := tr2 ++ [EvInject retryData] in
                match inject w2 retryData with
                | (w3, Throw e) => (w3, tr3, errorMatch e)
                | (w3, Ok tempMatch) =>
                    if statusIs (match_status tempMatch) "perfect"
                       || statusIs (match_status tempMatch) "partial"
                    then (w3, tr3, tempMatch)
                    else (w3, tr3, m)
                end
            end
        end
      else (w1, tr1, m)
  end.

(** One iteration of [for (const id in contractWrappers)]. A key with no
    wrapper behind it cannot come out of [for ... in]; reading [.contract]
    of it would be a [TypeError]. *)
Definition verifyOne (st : State World) (id : string)
  : State World * Result unit :=
  match JsObj.get id (storedWrappers (session st)) with
  | None =>
      (st, Throw (mkError TypeError "Cannot read properties of undefined"))
  | Some contractWrapper =>
      let '(w1, tr1, c1) :=
        checkAndFetchMissing (contract contractWrapper) (world st) (trace st) in
      let cw1 := setContract contractWrapper c1 in
      let s1 := putWrapper (session st) id cw1 in
      if negb (isVerifiable cw1) then (mkState w1 tr1 s1, Ok tt)
      else
        let inputData := mkInputData [address cw1] (chainId cw1) c1 in
        let tr2 := tr1 ++ [EvFindByAddress (address cw1) (chainId cw1)] in
        match findByAddress w1 (address cw1) (chainId cw1) with
        | Throw e => (mkState w1 tr2 s1, Throw e)
        | Ok found =>
            let '(w3, tr3, m) :=
              match found with
              | m :: _ => (w1, tr2, m)
              | [] => injectWithRetry w1 tr2 inputData (inputFiles s1)
              end in
            (mkState w3 tr3 (putWrapper s1 id (recordMatch cw1 m)), Ok tt)
        end
  end.

(** [verifyValidated(contractWrappers, session)], [ids] being the keys of
    [contractWrappers]. An exception ends the loop. *)
Fixpoint verifyValidated (ids : list string) (st : State World)
  : State World * Result unit :=
  match ids with
  | [] => (st, Ok tt)
  | id :: rest =>
      match verifyOne st id with
      | (st1, Ok _) => verifyValidated rest st1
      | (st1, Throw e) => (st1, Throw e)
      end
  end.

End Orchestrator.

(** ** Session endpoints *)
Section Endpoints.
Context {U : Util} {World : Type}
        {VER : IVerificationService World}
        {VAL : IValidationService World}
        {NET : Remote World}.

(** The keys of a [verifiable] map, in insertion order. *)
Definition Verifiable := JsObj.t unit.

(** The property names an object inherits from [Object.prototype]. Read
    on an object that has no key of that name, each gives a function or,
    for [__proto__], the prototype itself: a truthy value that is not a
    wrapper. *)
Definition inheritedNames : list string :=
  ["constructor"; "hasOwnProperty"; "isPrototypeOf"; "propertyIsEnumerable";
   "toLocaleString"; "toString"; "valueOf"; "__proto__";
   "__defineGetter__"; "__defineSetter__";
   "__lookupGetter__"; "__lookupSetter__"].

Definition isInherited (id : string) : bool :=
  existsb (String.eqb id) inheritedNames.

(** Modelled from the spec: [isVerifiable] of [VerificationController-util],
    which is not among the sources, on an object that has no [contract]. A
    candidate is verifiable "iff missingSources is empty AND both address
    and chainId are set", so the gate reads the missing sources of the
    contract; off an undefined contract that read is a [TypeError] (the
    engine's message is longer and names the property). *)
Definition gateOnInherited : JsError :=
  mkError TypeError "Cannot read properties of undefined".

(** One iteration over [receivedContracts]. [session.contractWrappers[id]]
    is a plain property read: a key of the map gives its wrapper; an id that
    is no key but an inherited name gives the inherited object, on which the
    two assignments land before [isVerifiable] throws; any other id gives
    [undefined], and the entry is skipped. *)
Definition receiveOne (acc : ContractWrapperMap * Verifiable)
  (receivedContract : SendableContract)
  : Result (ContractWrapperMap * Verifiable) :=
  let id := verificationId receivedContract in
  match JsObj.get id (fst acc) with
  | Some contractWrapper =>
      let cw := setTarget contractWrapper (sc_address receivedContract)
                          (sc_chainId receivedContract) in
      Ok (JsObj.set id cw (fst acc),
          if isVerifiable cw then JsObj.set id tt (snd acc) else snd acc)
  | None =>
      if isInherited id then Throw gateOnInherited else Ok acc
  end.

(** The loop over [receivedContracts]: the two maps and the trace when it
    ends, and how it ended. An exception ends it with the entries before
    already applied, and the write on the inherited object made. *)
Fixpoint receiveContracts (receivedContracts : list SendableContract)
  (acc : ContractWrapperMap * Verifiable) (tr : list Event)
  : (ContractWrapperMap * Verifiable) * list Event * Result unit :=
  match receivedContracts with
  | [] => (acc, tr, Ok tt)
  | receivedContract :: rest =>
      match receiveOne acc receivedContract with
      | Ok acc1 => receiveContracts rest acc1 tr
      | Throw e =>
          (acc,
           tr ++ [EvWriteInherited (verificationId receivedContract)
                    (sc_address receivedContract)
                    (sc_chainId receivedContract)],
           Throw e)
      end
  end.

(** [verifyValidatedEndpoint], [receivedContracts] being
    [req.body.contracts]. An exception in the loop ends the handler before
    [verifyValidated] is called; what the loop wrote stays written. *)
Definition verifyValidatedEndpoint (receivedContracts : list SendableContract)
  (st : State World) : State World * Result unit :=
  match contractWrappers (session st) with
  | None =>
      (st, Throw (mkError BadRequestError
                    "There are currently no pending contracts."))
  | Some ws =>
      if JsObj.isEmpty ws then
        (st, Throw (mkError BadRequestError
                      "There are currently no pending contracts."))
      else
        match receiveContracts receivedContracts (ws, []) (trace st) with
        | (r, tr, Throw e) =>
            (mkState (world st) tr
               (setContractWrappers (session st) (fst r)),
             Throw e)
        | (r, tr, Ok _) =>
            verifyValidated (JsObj.keys (snd r))
              (mkState (world st) tr
                 (setContractWrappers (session st) (fst r)))
        end
  end.

(** [{ path: pb.path, content: pb.buffer.toString(FILE_ENCODING) }] *)
Definition toPathContent (pb : PathBuffer) : PathContent :=
  mkPathContent (pb_path pb) (bufferToString (buffer pb)).

(** [addInputFilesEndpoint], [inputFiles] being the files taken from the
    request (which has passed [validateRequest]). *)
Definition addInputFilesEndpoint (inputFiles : list PathBuffer)
  (st : State World) : State World * Result unit :=
  let pathContents := map toPathContent inputFiles in
  match saveFiles pathContents (session st) with
  | (s1, Throw e) => (setSession st s1, Throw e)
  | (s1, Ok newFilesCount) =>
      if (newFilesCount =? 0)%N then (setSession st s1, Ok tt)
      else
        let st2 := validateContracts (setSession st s1) in
        verifyValidated (JsObj.keys (storedWrappers (session st2))) st2
  end.

(** Step 4 of [verifyFromEtherscanWithSession]: one iteration over
    [Object.keys(session.contractWrappers)]. *)
Definition targetOne (a c : string)
  (acc : ContractWrapperMap * Verifiable) (id : string)
  : ContractWrapperMap * Verifiable :=
  match JsObj.get id (fst acc) with
  | Some contractWrapper =>
      let cw := if negb (truthy (address contractWrapper))
                then setTarget contractWrapper (Some a) (Some c)
                else contractWrapper in
      (JsObj.set id cw (fst acc),
       if isVerifiable cw then JsObj.set id tt (snd acc) else snd acc)
  | None => acc
  end.

(** [verifyFromEtherscanWithSession], [chain] and [address] being
    [req.body.chainId] and [req.body.address] of a request that has passed
    [validateRequest]. *)
Definition verifyFromEtherscanWithSession (chain address : string)
  (st : State World) : State World * Result unit :=
  let tr := trace st ++ [EvEtherscan chain address] in
  match processRequestFromEtherscan (world st) chain address with
  | (w1, Throw e) => (mkState w1 tr (session st), Throw e)
  | (w1, Ok (sources, metadata)) =>
      let pathContents :=
        map (fun pc => mkPathContent (fst pc) (stringToBase64 (snd pc)))
            sources
        ++ [mkPathContent "metadata.json" (stringToBase64 metadata)] in
      match saveFiles pathContents (session st) with
      | (s1, Throw e) => (mkState w1 tr s1, Throw e)
      | (s1, Ok newFilesCount) =>
          if (newFilesCount =? 0)%N then
            (mkState w1 tr s1,
             Throw (mkError BadRequestError
                      "The contract didn't add any new file"))
          else
            let st2 := validateContracts (mkState w1 tr s1) in
            match contractWrappers (session st2) with
            | None =>
                (st2, Throw (mkError BadRequestError
                  "Unknown error during the Etherscan verification process"))
            | Some ws =>
                let r := fold_left (targetOne address chain)
                           (JsObj.keys ws) (ws, []) in
                verifyValidated (JsObj.keys (snd r))
                  (setSession st2 (setContractWrappers (session st2) (fst r)))
            end
      end
  end.

End Endpoints.

(** ** checkAllByAddresses *)
Section BatchLookup.
Context {World : Type} {VER : IVerificationService World}.

(** The request after the route's validators ran: what they rejected, and
    the fields they set. *)
Record CheckRequest := mkCheckRequest {
  validationErrors : list string;
  req_addresses : list string;
  req_chainIds : list string
}.

(** An element of the response array: [{ address, chainIds }] for an
    address found somewhere, [{ address, status }] otherwise. *)
Record CheckEntry := mkCheckEntry {
  entry_address : string;
  entry_status : option string;
  entry_chainIds : option (list (string * option string))
}.

(** [validateRequest(req)] *)
Definition validateRequest (errors : list string) : Result unit :=
  match errors with
  | [] => Ok tt
  | _ => Throw (mkError ValidationError "Validation Error")
  end.

(** The [try] block for one [(address, chainId)]. *)
Definition lookupTry (w : World) (address chainId : string)
  (map : JsObj.t CheckEntry) : Result (JsObj.t CheckEntry) :=
  match findAllByAddress w address chainId with
  | Throw e => Throw e
  | Ok found =>
      match found with
      | [] => Ok map
      | m :: _ =>
          let map1 := if negb (JsObj.has address map)
                      then JsObj.set address
                             (mkCheckEntry address None (Some [])) map
                      else map in
          match JsObj.get address map1 with
          | None => Throw (mkError TypeError
                             "Cannot read properties of undefined")
          | Some e =>
              match entry_chainIds e with
              | None => Throw (mkError TypeError
                                 "Cannot read properties of undefined")
              | Some l =>
                  Ok (JsObj.set address
                        (mkCheckEntry (entry_address e) (entry_status e)
                           (Some (l ++ [(chainId, match_status m)])))
                        map1)
              end
          end
      end
  end.

(** [try { ... } catch (error) { // ignore }]: a throw leaves the map as
    the block had left it. The block writes the map only after its last
    call that can throw, so that is the map it started from. *)
Definition lookupOne (w : World) (address : string)
  (map : JsObj.t CheckEntry) (chainId : string) : JsObj.t CheckEntry :=
  match lookupTry w address chainId map with
  | Ok map1 => map1
  | Throw _ => map
  end.

(** The body of the loop over [req.addresses]. *)
Definition lookupAddress (w : World) (chainIds : list string)
  (map : JsObj.t CheckEntry) (address : string) : JsObj.t CheckEntry :=
  let map1 := fold_left (lookupOne w address) chainIds map in
  if negb (JsObj.has address map1)
  then JsObj.set address (mkCheckEntry address (Some "false") None) map1
  else map1.

(** [checkAllByAddresses(req, res)]: the array sent. *)
Definition checkAllByAddresses (w : World) (req : CheckRequest)
  : Result (list CheckEntry) :=
  match validateRequest (validationErrors req) with
  | Throw e => Throw e
  | Ok _ =>
      Ok (JsObj.values
            (fold_left (lookupAddress w (req_chainIds req))
               (req_addresses req) []))
  end.

(** No stored match for [a] on any of the chains: each lookup throws or
    finds nothing. *)
Definition noMatchOn (w : World) (chainIds : list string) (a : string)
  : Prop :=
  forall c, In c chainIds ->
    findAllByAddress w a c = Ok [] \/ exists e, findAllByAddress w a c = Throw e.

Definition falseEntry (a : string) : CheckEntry :=
  mkCheckEntry a (Some "false") None.

(** The map holds, under [a], an entry with a chain list. *)
Definition chainEntry (map : JsObj.t CheckEntry) (a : string)
  (l : list (string * option string)) : Prop :=
  JsObj.get a map = Some (mkCheckEntry a None (Some l)).

(** The chain list under [a] reports chain [c] with status [st]. *)
Definition listed (map : JsObj.t CheckEntry) (a c : string)
  (st : option string) : Prop :=
  exists l, chainEntry map a l /\ In (c, st) l.

End BatchLookup.

(** ** Request validators, lookups by address and the one-shot endpoints *)

From Stdlib Require Import DecimalString.

(** What is thrown where the classes of [ErrorClass] do not reach: a plain
    [Error], a [NotFoundError], or an error of one of those classes. *)
Inductive ThrownClass :=
| PlainError
| NotFoundError
| OfClass (c : ErrorClass).

Record Thrown := mkThrown { thrown_class : ThrownClass; thrown_message : string }.

Inductive Outcome (A : Type) :=
| Done (a : A)
| Raised (t : Thrown).
Arguments Done {A} a.
Arguments Raised {A} t.

(** An error that propagates unchanged. *)
Definition rethrow (e : JsError) : Thrown :=
  mkThrown (OfClass (err_class e)) (err_message e).

Definition badRequest (msg : string) : Thrown :=
  mkThrown (OfClass BadRequestError) msg.

(** [s.split(",")]: the pieces between the commas, never an empty array. *)
Fixpoint splitComma (s : string) : list string :=
  match s with
  | EmptyString => [""]
  | String c r =>
      if Ascii.eqb c ","%char then "" :: splitComma r
      else match splitComma r with
           | h :: t => String c h :: t
           | [] => [String c ""]
           end
  end.

(** A line feed. *)
Definition newline : string := String (ascii_of_nat 10) "".

(** [`${n}`] for a length. *)
Definition showNat (n : nat) : string :=
  NilZero.string_of_uint (Nat.to_uint n).

(** Imported validators: [isValidAddress] of [common/validators],
    [web3utils.toChecksumAddress], [checkChainId] of [core] (which throws
    on a chain it does not know). *)
Class Validators := {
  isValidAddress : string -> bool;
  toChecksumAddress : string -> string;
  checkChainId : string -> Result string
}.

Section RequestValidation.
Context {V : Validators}.

(** One iteration of the loop of [validateAddresses] over the array's
    indices: the invalid addresses so far, and the array so far. *)
Definition checkAddress (acc : list string * list string) (address : string)
  : list string * list string :=
  if negb (isValidAddress address)
  then (fst acc ++ [address], snd acc ++ [address])
  else (fst acc, snd acc ++ [toChecksumAddress address]).

(** [validateAddresses(addresses)] *)
Definition validateAddresses (addresses : string) : Outcome (list string) :=
  let r := fold_left checkAddress (splitComma addresses) ([], []) in
  match fst r with
  | [] => Done (snd r)
  | invalidAddresses =>
      Raised (mkThrown PlainError
                ("Invalid addresses: "
                 ++ String.concat ", " invalidAddresses)%string)
  end.

(** One iteration of the loop of [validateChainIds]: the valid and the
    invalid chain ids so far. *)
Definition checkChain (acc : list string * list string) (chainId : string)
  : list string * list string :=
  match checkChainId chainId with
  | Ok c => (fst acc ++ [c], snd acc)
  | Throw _ => (fst acc, snd acc ++ [chainId])
  end.

(** [validateChainIds(chainIds)] *)
Definition validateChainIds (chainIds : string) : Outcome (list string) :=
  let r := fold_left checkChain (splitComma chainIds) ([], []) in
  match snd r with
  | [] => Done (fst r)
  | invalidChainIds =>
      Raised (mkThrown PlainError
                ("Invalid chainIds: "
                 ++ String.concat ", " invalidChainIds)%string)
  end.

(** The value [checkChainId] returns for a piece, or nothing when it
    throws. *)
Definition checkedChain (c : string) : list string :=
  match checkChainId c with Ok v => [v] | Throw _ => [] end.

(** Whether [checkChainId] throws on a piece. *)
Definition rejectedChain (c : string) : bool :=
  match checkChainId c with Ok _ => false | Throw _ => true end.

End RequestValidation.

(** [stringifyInvalidAndMissing(contract)] *)
Definition stringifyInvalidAndMissing (c : CheckedContract) : string :=
  (name c ++ " ("
   ++ String.concat ", " (JsObj.keys (invalid c) ++ JsObj.keys (missing c))%list
   ++ ")")%string.

(** A source of a [JsonInput]: its [content], if it has one. *)
Record JsonSource := mkJsonSource { source_content : option string }.

(** [getMappedSourcesFromJsonInput(jsonInput)], on [jsonInput.sources]. *)
Definition getMappedSourcesFromJsonInput (sources : JsObj.t JsonSource)
  : JsObj.t string :=
  fold_left
    (fun mappedSources kv =>
       if truthy (source_content (snd kv))
       then JsObj.set (fst kv) (orElse (source_content (snd kv)) "")
                      mappedSources
       else mappedSources)
    sources [].

(** The entry a source contributes to the mapped sources. *)
Definition mappedEntry (kv : string * JsonSource) : JsObj.t string :=
  if truthy (source_content (snd kv))
  then [(fst kv, orElse (source_content (snd kv)) "")]
  else [].

(** ** checkByAddresses *)
Section LookupByAddress.
Context {World : Type} {VER : IVerificationService World}.

(** An element of the response array of [checkByAddresses]:
    [{ address, status: "perfect", chainIds }] or
    [{ address, status: "false" }]. *)
Record PerfectEntry := mkPerfectEntry {
  perfect_address : string;
  perfect_status : option string;
  perfect_chainIds : option (list string)
}.

(** The [try] block for one [(address, chainId)]. *)
Definition perfectTry (w : World) (address chainId : string)
  (map : JsObj.t PerfectEntry) : Result (JsObj.t PerfectEntry) :=
  match findByAddress w (Some address) (Some chainId) with
  | Throw e => Throw e
  | Ok found =>
      match found with
      | [] => Ok map
      | _ :: _ =>
          let map1 := if negb (JsObj.has address map)
                      then JsObj.set address
                             (mkPerfectEntry address (Some "perfect")
                                (Some [])) map
                      else map in
          match JsObj.get address map1 with
          | None => Throw (mkError TypeError
                             "Cannot read properties of undefined")
          | Some e =>
              match perfect_chainIds e with
              | None => Throw (mkError TypeError
                                 "Cannot read properties of undefined")
              | Some l =>
                  Ok (JsObj.set address
                        (mkPerfectEntry (perfect_address e) (perfect_status e)
                           (Some (l ++ [chainId])))
                        map1)
              end
          end
      end
  end.

(** The block with its empty [catch]. *)
Definition perfectOne (w : World) (address : string)
  (map : JsObj.t PerfectEntry) (chainId : string) : JsObj.t PerfectEntry :=
  match perfectTry w address chainId map with
  | Ok map1 => map1
  | Throw _ => map
  end.

(** The body of the loop over [req.addresses]. *)
Definition perfectAddress (w : World) (chainIds : list string)
  (map : JsObj.t PerfectEntry) (address : string) : JsObj.t PerfectEntry :=
  let map1 := fold_left (perfectOne w address) chainIds map in
  if negb (JsObj.has address map1)
  then JsObj.set address (mkPerfectEntry address (Some "false") None) map1
  else map1.

(** [checkByAddresses(req, res)]: the array sent. *)
Definition checkByAddresses (w : World) (req : CheckRequest)
  : Result (list PerfectEntry) :=
  match validateRequest (validationErrors req) with
  | Throw e => Throw e
  | Ok _ =>
      Ok (JsObj.values
            (fold_left (perfectAddress w (req_chainIds req))
               (req_addresses req) []))
  end.

(** The chains of [chainIds], in order, on which [a] has a stored perfect
    match. *)
Definition perfectChains (w : World) (chainIds : list string) (a : string)
  : list string :=
  filter (fun c => match findByAddress w (Some a) (Some c) with
                   | Ok (_ :: _) => true
                   | _ => false
                   end) chainIds.

(** The entry [checkByAddresses] owes an address. *)
Definition perfectEntryFor (w : World) (chainIds : list string) (a : string)
  : PerfectEntry :=
  match perfectChains w chainIds a with
  | [] => mkPerfectEntry a (Some "false") None
  | l => mkPerfectEntry a (Some "perfect") (Some l)
  end.

(** The chains of [chainIds], in order, on which [a] has a stored match,
    each with the status of the first match found. *)
Definition matchedChains (w : World) (chainIds : list string) (a : string)
  : list (string * option string) :=
  flat_map (fun c => match findAllByAddress w a c with
                     | Ok (m :: _) => [(c, match_status m)]
                     | _ => []
                     end) chainIds.

(** The entry [checkAllByAddresses] owes an address. *)
Definition checkEntryFor (w : World) (chainIds : list string) (a : string)
  : CheckEntry :=
  match matchedChains w chainIds a with
  | [] => mkCheckEntry a (Some "false") None
  | l => mkCheckEntry a None (Some l)
  end.

(** The map while the chains of one address are looked up: untouched until
    the first match, then with the address's entry at its end. *)
Definition perfectSoFar (map : JsObj.t PerfectEntry) (a : string)
  (l : list string) : JsObj.t PerfectEntry :=
  match l with
  | [] => map
  | _ => map ++ [(a, mkPerfectEntry a (Some "perfect") (Some l))]
  end.

(** The same for [checkAllByAddresses]. *)
Definition matchedSoFar (map : JsObj.t CheckEntry) (a : string)
  (l : list (string * option string)) : JsObj.t CheckEntry :=
  match l with
  | [] => map
  | _ => map ++ [(a, mkCheckEntry a None (Some l))]
  end.

End LookupByAddress.

(** ** verifyFromEtherscan *)

(** [new CheckedContract(metadata, sources)], the metadata in the form the
    Etherscan request hands it over. *)
Class Core := {
  newCheckedContract : string -> JsObj.t string -> CheckedContract;
  (** [contract.compiledPath] *)
  compiledPath : CheckedContract -> string;
  (** [Buffer.from(file)] for a file of a JSON body *)
  bufferOfJson : string -> Buffer
}.

Section OneShot.
Context {U : Util} {K : Core} {World : Type}
        {VER : IVerificationService World}
        {VAL : IValidationService World}
        {NET : Remote World}.

(** [verifyFromEtherscan], [chain] and [address] being [req.body.chainId]
    and [req.body.address] of a request that has passed [validateRequest]:
    the state after, and the [result] array sent. The session is not read. *)
Definition verifyFromEtherscan (chain address : string) (st : State World)
  : State World * Result (list Match) :=
  let tr := trace st ++ [EvEtherscan chain address] in
  match processRequestFromEtherscan (world st) chain address with
  | (w1, Throw e) => (mkState w1 tr (session st), Throw e)
  | (w1, Ok (sources, metadata)) =>
      let mappedSources :=
        getMappedSourcesFromJsonInput
          (map (fun pc => (fst pc, mkJsonSource (Some (snd pc)))) sources) in
      let checkedContract := newCheckedContract metadata mappedSources in
      let inputData :=
        mkInputData [Some address] (Some chain) checkedContract in
      let tr1 := tr ++ [EvInject inputData] in
      match inject w1 inputData with
      | (w2, Throw e) => (mkState w2 tr1 (session st), Throw e)
      | (w2, Ok result) => (mkState w2 tr1 (session st), Ok [result])
      end
  end.

End OneShot.

(** ** verifyCreate2 *)

(** [verificationService.verifyCreate2] *)
Class ICreate2Service (World : Type) := {
  serviceVerifyCreate2 :
    World -> CheckedContract -> string -> string -> list string ->
    World * Result unit
}.

(** The fields of [req.body] that [verifyCreate2] reads; [files] is an
    object of file contents by name. *)
Record Create2Request := mkCreate2Request {
  deployerAddress : string;
  salt : string;
  constructorArgs : option (list string);
  baseContract : option string;
  body_files : option (JsObj.t string)
}.

(** Calls [verifyCreate2] makes to its collaborators. *)
Inductive Create2Event :=
| C2CheckFiles (files : list PathBuffer)
| C2Verify (c : CheckedContract) (deployer salt : string)
           (args : list string).

(** What [verifyCreate2] sends: [{ result: "ok" }] or
    [{ result: "pass either address or files" }]. *)
Inductive Create2Response :=
| C2Ok
| C2Pass.

(** The message of the [BadRequestError] for invalid contracts. *)
Definition invalidSourcesMessage (invalidContracts : list CheckedContract)
  : string :=
  ("Invalid or missing sources in:" ++ newline
   ++ String.concat newline (map stringifyInvalidAndMissing invalidContracts))
  %string.

Definition noCompilerVersion : Thrown :=
  badRequest "Metadata file not specifying a compiler version.".

(** The [TypeError] of reading [compilerVersion] off [undefined]; the
    engine's message is longer and names the property. *)
Definition undefinedContract : Thrown :=
  mkThrown (OfClass TypeError) "Cannot read properties of undefined".

Section Create2.
Context {U : Util} {K : Core} {World : Type}
        {VAL : IValidationService World}
        {C2 : ICreate2Service World}.

(** [extractFilesFromJSON(files)] *)
Definition extractFilesFromJSON (files : JsObj.t string) : list PathBuffer :=
  map (fun kv => mkPathBuffer (fst kv) (bufferOfJson (snd kv))) files.

(** The contracts that fail [CheckedContract.isValid(contract, true)]. *)
Definition invalidContracts (cs : list CheckedContract)
  : list CheckedContract :=
  filter (fun c => negb (isValid c true)) cs.

(** [verifyCreate2], on the body of a request that has passed
    [validateRequest]: the world after, the calls made, and the response
    sent, if one is. [extractFilesFromJSON] returns an array, so the
    [NotFoundError] guarded by [!inputFiles] is never thrown. *)
Definition verifyCreate2 (req : Create2Request) (w : World)
  : World * list Create2Event * Outcome (option Create2Response) :=
  match body_files req with
  | Some files =>
      let inputFiles := extractFilesFromJSON files in
      match checkFiles w inputFiles with
      | (w1, Throw e) =>
          (w1, [C2CheckFiles inputFiles], Raised (badRequest (err_message e)))
      | (w1, Ok (validatedContracts, _)) =>
          match invalidContracts validatedContracts with
          | _ :: _ =>
              (w1, [C2CheckFiles inputFiles],
               Raised (badRequest
                         (invalidSourcesMessage
                            (invalidContracts validatedContracts))))
          | [] =>
              match validatedContracts with
              | [] => (w1, [C2CheckFiles inputFiles], Raised undefinedContract)
              | contract :: _ =>
                  if negb (truthy (compilerVersion contract)) then
                    (w1, [C2CheckFiles inputFiles], Raised noCompilerVersion)
                  else
                    let args := match constructorArgs req with
                                | Some a => a
                                | None => []
                                end in
                    let ev := [C2CheckFiles inputFiles;
                               C2Verify contract (deployerAddress req)
                                        (salt req) args] in
                    match serviceVerifyCreate2 w1 contract
                            (deployerAddress req) (salt req) args with
                    | (w2, Throw e) => (w2, ev, Raised (rethrow e))
                    | (w2, Ok _) => (w2, ev, Done (Some C2Ok))
                    end
              end
          end
      end
  | None =>
      if truthy (baseContract req) then (w, [], Done None)
      else (w, [], Done (Some C2Pass))
  end.

(** The calls a run makes. *)
Definition create2Events (req : Create2Request) (w : World)
  : list Create2Event := snd (fst (verifyCreate2 req w)).

(** How a run ends, and what it sends. *)
Definition create2Outcome (req : Create2Request) (w : World)
  : Outcome (option Create2Response) := snd (verifyCreate2 req w).

End Create2.

(** ** legacyVerifyEndpoint *)

(** [req.body.chosenContract]: absent, an index sent as a number, or an
    index sent as its decimal string (a form field). *)
Inductive Chosen :=
| NotChosen
| ChosenNumber (n : nat)
| ChosenString (n : nat).

(** [Boolean(req.body.chosenContract)]: the number 0 is falsy, the string
    "0" is not. *)
Definition chosenTruthy (c : Chosen) : bool :=
  match c with
  | NotChosen => false
  | ChosenNumber n => negb (Nat.eqb n 0)
  | ChosenString _ => true
  end.

(** [validatedContracts[req.body.chosenContract]] *)
Definition chosenIndex (c : Chosen) : nat :=
  match c with
  | NotChosen => 0
  | ChosenNumber n => n
  | ChosenString n => n
  end.

(** The request after the route's validators set [req.addresses] and
    [req.chain]; [files] is what [extractFiles(req)] returns. *)
Record LegacyRequest := mkLegacyRequest {
  legacy_addresses : list string;
  legacy_chain : string;
  legacy_files : option (list PathBuffer);
  chosenContract : Chosen
}.

(** A response body: [{ result }], [{ error }], or
    [{ error, contractsToChoose }] with each contract's name and path. *)
Inductive Payload :=
| ResultBody (result : list Match)
| ErrorBody (error : string)
| ChooseBody (error : string) (contractsToChoose : list (string * string)).

Record Sent := mkSent { sent_status : nat; sent_body : Payload }.

(** The response object: whether [res.send] throws, given what was sent
    before on the same response. *)
Class Express := {
  sendThrows : list Sent -> option JsError
}.

Definition notSourcified : Thrown :=
  mkThrown NotFoundError
    "The contract at the provided address and chain has not yet been sourcified.".

(** The message that asks for a choice among [cs]. *)
Definition chooseMessage (cs : list CheckedContract) : string :=
  ("Detected " ++ showNat (length cs) ++ " contracts ("
   ++ String.concat ", " (map name cs)
   ++ "), but can only verify 1 at a time. Please choose a main contract and click Verify again.")
  %string.

(** What a run of the endpoint leaves: the world, the calls made, what was
    sent on the response, and how the handler ended. *)
Record Reply (World : Type) := mkReply {
  reply_world : World;
  reply_trace : list Event;
  reply_sent : list Sent;
  reply_outcome : Outcome unit
}.
Arguments mkReply {World} reply_world reply_trace reply_sent reply_outcome.
Arguments reply_world {World} r.
Arguments reply_trace {World} r.
Arguments reply_sent {World} r.
Arguments reply_outcome {World} r.

Section Legacy.
Context {U : Util} {K : Core} {X : Express} {World : Type}
        {VER : IVerificationService World}
        {VAL : IValidationService World}.

(** [res.status(code).send(body)] *)
Definition resSend (sent : list Sent) (code : nat) (body : Payload)
  : list Sent * Result unit :=
  match sendThrows sent with
  | Some e => (sent, Throw e)
  | None => (sent ++ [mkSent code body], Ok tt)
  end.

(** A send that ends the handler: a throw of [res.send] propagates. *)
Definition sendLast (w : World) (tr : list Event) (sent : list Sent)
  (code : nat) (body : Payload) : Reply World :=
  match resSend sent code body with
  | (sent1, Throw e) => mkReply w tr sent1 (Raised (rethrow e))
  | (sent1, Ok _) => mkReply w tr sent1 (Done tt)
  end.

(** The loop over [req.addresses]: the first non-empty stored result. *)
Fixpoint storedResult (w : World) (tr : list Event) (addresses : list string)
  (chain : string) : list Event * Result (option (list Match)) :=
  match addresses with
  | [] => (tr, Ok None)
  | a :: rest =>
      let tr1 := tr ++ [EvFindByAddress (Some a) (Some chain)] in
      match findByAddress w (Some a) (Some chain) with
      | Throw e => (tr1, Throw e)
      | Ok [] => storedResult w tr1 rest chain
      | Ok result => (tr1, Ok (Some result))
      end
  end.

(** The [catch] clause of the last [try]:
    [res.status(INTERNAL_SERVER_ERROR).send({ error: error.message })]. *)
Definition sendError (w : World) (tr : list Event) (sent : list Sent)
  (e : JsError) : Reply World :=
  sendLast w tr sent 500 (ErrorBody (err_message e)).

(** The last [try] block with its [catch] (lines 460-479). *)
Definition injectLegacy (w : World) (tr : list Event) (inputData : InputData)
  (inputFiles : list PathBuffer) : Reply World :=
  let tr1 := tr ++ [EvInject inputData] in
  match inject w inputData with
  | (w1, Throw e) => sendError w1 tr1 [] e
  | (w1, Ok result) =>
      if statusIs (match_status result) "extra-file-input-bug" then
        let tr2 := tr1 ++ [EvUseAllSources (input_contract inputData)
                                            inputFiles] in
        match useAllSources w1 (input_contract inputData) inputFiles with
        | (w2, Throw e) => sendError w2 tr2 [] e
        | (w2, Ok contractWithAllSources) =>
            let retryData :=
              mkInputData (addresses inputData) (chain inputData)
                          contractWithAllSources in
            let tr3 := tr2 ++ [EvInject retryData] in
            match inject w2 retryData with
            | (w3, Throw e) => sendError w3 tr3 [] e
            | (w3, Ok tempResult) =>
                match (if statusIs (match_status tempResult) "perfect"
                       then resSend [] 200 (ResultBody [tempResult])
                       else ([], Ok tt)) with
                | (sent1, Throw e) => sendError w3 tr3 sent1 e
                | (sent1, Ok _) =>
                    match resSend sent1 200 (ResultBody [result]) with
                    | (sent2, Throw e) => sendError w3 tr3 sent2 e
                    | (sent2, Ok _) => mkReply w3 tr3 sent2 (Done tt)
                    end
                end
            end
        end
      else
        match resSend [] 200 (ResultBody [result]) with
        | (sent1, Throw e) => sendError w1 tr1 sent1 e
        | (sent1, Ok _) => mkReply w1 tr1 sent1 (Done tt)
        end
  end.

(** [legacyVerifyEndpoint], on a request that has passed
    [validateRequest]. *)
Definition legacyVerifyEndpoint (req : LegacyRequest) (w : World)
  (tr : list Event) : Reply World :=
  match storedResult w tr (legacy_addresses req) (legacy_chain req) with
  | (tr1, Throw e) => mkReply w tr1 [] (Raised (rethrow e))
  | (tr1, Ok (Some result)) => sendLast w tr1 [] 200 (ResultBody result)
  | (tr1, Ok None) =>
      match legacy_files req with
      | None => mkReply w tr1 [] (Raised notSourcified)
      | Some inputFiles =>
          let tr2 := tr1 ++ [EvCheckFiles inputFiles] in
          match checkFiles w inputFiles with
          | (w1, Throw e) =>
              mkReply w1 tr2 [] (Raised (badRequest (err_message e)))
          | (w1, Ok (validatedContracts, _)) =>
              match invalidContracts validatedContracts with
              | _ :: _ =>
                  mkReply w1 tr2 []
                    (Raised (badRequest
                               (invalidSourcesMessage
                                  (invalidContracts validatedContracts))))
              | [] =>
                  if negb (Nat.eqb (length validatedContracts) 1)
                     && negb (chosenTruthy (chosenContract req))
                  then
                    sendLast w1 tr2 [] 400
                      (ChooseBody (chooseMessage validatedContracts)
                         (map (fun c => (name c, compiledPath c))
                              validatedContracts))
                  else
                    match nth_error validatedContracts
                            (if chosenTruthy (chosenContract req)
                             then chosenIndex (chosenContract req)
                             else 0) with
                    | None => mkReply w1 tr2 [] (Raised undefinedContract)
                    | Some contract =>
                        if negb (truthy (compilerVersion contract)) then
                          mkReply w1 tr2 [] (Raised noCompilerVersion)
                        else
                          injectLegacy w1 tr2
                            (mkInputData (map Some (legacy_addresses req))
                               (Some (legacy_chain req)) contract)
                            inputFiles
                    end
              end
          end
      end
  end.

(** The lookups the endpoint starts with, one per address. *)
Definition lookupEvents (addresses : list string) (chain : string)
  : list Event :=
  map (fun a => EvFindByAddress (Some a) (Some chain)) addresses.

End Legacy.

(** ** Further derived notions *)

(** [cw] is [old] but for the resolved and missing sources of its contract:
    target, outcome of the last attempt, and the rest of the contract are
    the same. *)
Definition sameButSources (old cw : ContractWrapper) : Prop :=
  address cw = address old
  /\ chainId cw = chainId old
  /\ status cw = status old
  /\ statusMessage cw = statusMessage old
  /\ storageTimestamp cw = storageTimestamp old
  /\ metadataRaw (contract cw) = metadataRaw (contract old)
  /\ name (contract cw) = name (contract old)
  /\ compilerVersion (contract cw) = compilerVersion (contract old)
  /\ invalid (contract cw) = invalid (contract old).

(** The candidate under [id] carries the error [e] as the outcome of its
    last attempt. *)
Definition recordedError {World} (st : State World) (id : string)
  (e : JsError) : Prop :=
  exists cw,
    JsObj.get id (storedWrappers (session st)) = Some cw
    /\ status cw = Some "error"
    /\ statusMessage cw = Some (err_message e)
    /\ storageTimestamp cw = None.

(** The calls a verification pass can make. *)
Definition isPassEvent (e : Event) : bool :=
  match e with
  | EvFetchMissing _ | EvFindByAddress _ _ | EvInject _
  | EvUseAllSources _ _ => true
  | EvCheckFiles _ | EvEtherscan _ _ | EvWriteInherited _ _ _ => false
  end.

(** The files [verifyFromEtherscanWithSession] saves: the sources of the
    reply and the metadata, in base64. *)
Definition etherscanPathContents {U : Util} (sources : list (string * string))
  (metadata : string) : list PathContent :=
  map (fun pc => mkPathContent (fst pc) (stringToBase64 (snd pc))) sources
  ++ [mkPathContent "metadata.json" (stringToBase64 metadata)].

(** The target step 4 of the Etherscan flow leaves on a wrapper. *)
Definition boundTo (a c : string) (cw : ContractWrapper)
  : option string * option string :=
  if truthy (address cw) then (address cw, chainId cw)
  else (Some a, Some c).

(** ** Derived measures *)

(** Total [content.length] over the files a session holds. *)
Definition sessionSize (s : MySession) : N :=
  addSizes 0%N (JsObj.values (storedFiles s)).

(** Total [content.length] over an incoming batch, every file counted. *)
Definition batchSize (pcs : list PathContent) : N := addSizes 0%N pcs.

(** The wrapper a pass leaves under an id it reports. *)
Definition mergedInto (ws : ContractWrapperMap) (id : string)
  (new : ContractWrapper) : ContractWrapper :=
  match JsObj.get id ws with
  | Some old => mergeWrapper old new
  | None => new
  end.

(** The paths a wrapper has resolved, and the paths it still misses. *)
Definition resolvedPaths (cw : ContractWrapper) : list string :=
  JsObj.keys (solidity (contract cw)).
Definition missingPaths (cw : ContractWrapper) : list string :=
  JsObj.keys (missing (contract cw)).

Definition disjointPaths (a b : list string) : Prop :=
  forall p, In p a -> ~ In p b.

(** The map holds a wrapper under [id] whose target is [(a, c)]. *)
Definition targetIn (ws : ContractWrapperMap) (id : string)
  (a c : option string) : Prop :=
  exists cw', JsObj.get id ws = Some cw' /\ address cw' = a /\ chainId cw' = c.

(** The session of [st] holds a wrapper under [id] whose target is the
    target of [cw]. *)
Definition keepsTarget {World} (cw : ContractWrapper) (st : State World)
  (id : string) : Prop :=
  exists cw',
    JsObj.get id (storedWrappers (session st)) = Some cw'
    /\ address cw' = address cw /\ chainId cw' = chainId cw.


(** Reading [ws[id]] finds no key [id] and falls through to an object
    inherited from [Object.prototype]. *)
Definition readsInherited (ws : ContractWrapperMap) (id : string) : bool :=
  negb (JsObj.has id ws) && isInherited id.

(** No entry of the request reads an inherited object. *)
Definition ownOrAbsent (ws : ContractWrapperMap)
  (rcs : list SendableContract) : Prop :=
  forall rc, In rc rcs -> readsInherited ws (verificationId rc) = false.


(** A string of [n] characters. *)
Definition filler (n : N) : string := N.iter n (String "A"%char) "".

(** ** A concrete instance

    Collaborators simple enough to run: the hash is the content itself,
    the encodings are the identity, a contract is valid when nothing is
    invalid or (unless ignored) missing, and the gate asks for nothing
    missing or invalid and a target. *)
Module Example.

Definition util : Util := {|
  generateId := fun s => s;
  isVerifiable := fun cw =>
    JsObj.isEmpty (missing (contract cw))
    && JsObj.isEmpty (invalid (contract cw))
    && truthy (address cw) && truthy (chainId cw);
  isValid := fun c ignoreMissing =>
    JsObj.isEmpty (invalid c) && (ignoreMissing || JsObj.isEmpty (missing c));
  bufferFrom := fun s => s;
  bufferToString := fun b => b;
  stringToBase64 := fun s => s
|}.

Definition emptySession : MySession := mkSession None None None.

(** A file one character past the cap, and one past half of it. *)
Definition hugeFile : PathContent :=
  mkPathContent "Huge.sol" (filler 52428801).
Definition bigFile : PathContent :=
  mkPathContent "Big.sol" (filler 26214401).

(** The world outside: the (address, chain) pairs with a stored perfect
    match, and how many more fetches the source gateway will serve. *)
Record Outside := mkOutside {
  repository : list (string * string);
  gateway : nat
}.

Definition perfectMatch (a : option string) : Match :=
  mkMatch (Some "perfect") a None (Some 1%N).

Definition bugMatch : Match :=
  mkMatch (Some "extra-file-input-bug") None
    (Some "The bytecodes match only with all the source files.") None.

Definition isStored (w : Outside) (a c : option string) : bool :=
  match a, c with
  | Some a', Some c' =>
      existsb (fun p => String.eqb (fst p) a' && String.eqb (snd p) c')
              (repository w)
  | _, _ => false
  end.

(** The verification service: a contract matches perfectly once
    [Lib.sol] is among its sources, and the match is then stored; chain
    "0" is not served. *)
Definition verification : IVerificationService Outside := {|
  findByAddress := fun w a c =>
    if isStored w a c then Ok [perfectMatch a] else Ok [];
  findAllByAddress := fun w a c =>
    if String.eqb c "0" then Throw (mkError ServiceError "Unsupported chain")
    else if isStored w (Some a) (Some c) then Ok [perfectMatch (Some a)]
    else Ok [];
  inject := fun w d =>
    if JsObj.has "Lib.sol" (solidity (input_contract d)) then
      match hd None (addresses d), chain d with
      | Some a, Some c =>
          (mkOutside ((a, c) :: repository w) (gateway w),
           Ok (perfectMatch (Some a)))
      | _, _ => (w, Throw (mkError ServiceError "Missing address or chain"))
      end
    else (w, Ok bugMatch)
|}.

Definition findFile (files : list PathBuffer) (p : string) : option Buffer :=
  option_map buffer (find (fun pb => String.eqb (pb_path pb) p) files).

(** The sources the metadata of the example contract lists. *)
Definition expectedSources : list string := ["A.sol"; "B.sol"].

Definition resolvedAmong (files : list PathBuffer) : JsObj.t string :=
  flat_map (fun p => match findFile files p with
                     | Some b => [(p, b)]
                     | None => []
                     end) expectedSources.

Definition missingAmong (files : list PathBuffer) : JsObj.t string :=
  flat_map (fun p => match findFile files p with
                     | Some _ => []
                     | None => [(p, "keccak256")]
                     end) expectedSources.

Definition unusedAmong (files : list PathBuffer) : list string :=
  map pb_path
    (filter (fun pb => negb (String.eqb (pb_path pb) "metadata.json"
                             || existsb (String.eqb (pb_path pb))
                                        expectedSources))
            files).

(** The validation service: one contract per batch that holds a
    [metadata.json], its sources looked up by path among the files; a batch
    without metadata is rejected. *)
Definition validation : IValidationService Outside := {|
  checkFiles := fun w files =>
    match findFile files "metadata.json" with
    | Some raw =>
        (w, Ok ([mkCheckedContract raw "Token" (Some "0.8.17")
                   (resolvedAmong files) (missingAmong files) []],
                unusedAmong files))
    | None => (w, Throw (mkError ServiceError "Metadata file not found"))
    end;
  useAllSources := fun w c files =>
    (w, Ok (setSources c
              (fold_left (fun acc pb =>
                            if JsObj.has (pb_path pb) acc then acc
                            else JsObj.set (pb_path pb) (buffer pb) acc)
                         files (solidity c))
              (missing c)))
|}.

(** The network: while the gateway serves, every missing source is
    fetched. *)
Definition remote : Remote Outside := {|
  fetchMissing := fun w c =>
    match gateway w with
    | O => (w, c)
    | S n =>
        (mkOutside (repository w) n,
         setSources c
           (solidity c ++ map (fun kv => (fst kv, "fetched")) (missing c))
           [])
    end;
  processRequestFromEtherscan := fun w chain address =>
    (w, Ok ([("A.sol", "a"); ("B.sol", "b")], "etherscan metadata"))
|}.

(** Two uploads into a fresh session: the metadata with one of its two
    sources, then a file no contract uses. *)
Definition firstUpload : list PathBuffer :=
  [mkPathBuffer "metadata.json" "M"; mkPathBuffer "A.sol" "a"].
Definition secondUpload : list PathBuffer :=
  [mkPathBuffer "README.md" "r"].

Definition freshState : State Outside :=
  mkState (mkOutside [] 1) [] emptySession.

(** A complete candidate bound to a target, in a session that also holds
    [Lib.sol]. *)
Definition tokenContract : CheckedContract :=
  mkCheckedContract "M" "Token" (Some "0.8.17")
    [("A.sol", "a"); ("B.sol", "b")] [] [].

Definition boundWrapper : ContractWrapper :=
  mkContractWrapper tokenContract (Some "0xabc") (Some "1") None None None.

Definition boundSession : MySession :=
  mkSession
    (Some [("M", mkPathContent "metadata.json" "M");
           ("a", mkPathContent "A.sol" "a");
           ("b", mkPathContent "B.sol" "b");
           ("l", mkPathContent "Lib.sol" "l")])
    (Some [("M", boundWrapper)])
    (Some []).

(** The same session before and after the target was verified. *)
Definition unverifiedState : State Outside :=
  mkState (mkOutside [] 0) [] boundSession.
Definition verifiedState : State Outside :=
  mkState (mkOutside [("0xabc", "1")] 0) [] boundSession.

(** A session holding a source and no metadata. *)
Definition orphanState : State Outside :=
  mkState (mkOutside [] 0) []
    (mkSession (Some [("a", mkPathContent "A.sol" "a")]) None None).


Definition strayEntry : SendableContract :=
  mkSendable "N" (Some "0xdef") (Some "1").

(** A batch lookup of two addresses on two chains. *)
Definition lookupRequest : CheckRequest :=
  mkCheckRequest [] ["0xabc"; "0xdef"] ["1"; "0"].

End Example.

(** ** More of the concrete instance *)
Module ExampleMore.
Import Example.

(** A verification service whose node is down: nothing is stored, and
    [inject] throws. *)
Definition downVerification : IVerificationService Outside := {|
  findByAddress := fun w a c => Ok [];
  findAllByAddress := fun w a c => Ok [];
  inject := fun w d => (w, Throw (mkError ServiceError "node unreachable"))
|}.

(** A contract is built from the metadata and sources as they come; its
    compiled path is its name with the Solidity extension. *)
Definition core : Core := {|
  newCheckedContract := fun metadata sources =>
    mkCheckedContract metadata "Token" (Some "0.8.17") sources [] [];
  compiledPath := fun c => (name c ++ ".sol")%string;
  bufferOfJson := fun s => s
|}.

(** A response that refuses whatever comes after its first send. *)
Definition express : Express := {|
  sendThrows := fun sent =>
    match sent with
    | [] => None
    | _ => Some (mkError ServiceError
                   "Cannot set headers after they are sent to the client")
    end
|}.

(** Addresses are valid when they start with [0x]; the checksum form is
    the address itself; chains "1" and "5" are known. *)
Definition validators : Validators := {|
  isValidAddress := fun a => String.prefix "0x" a;
  toChecksumAddress := fun a => a;
  checkChainId := fun c =>
    if String.eqb c "1" || String.eqb c "5" then Ok c
    else Throw (mkError ServiceError "Chain not supported")
|}.

(** A session holding the metadata and one source, not yet assembled. *)
Definition uploadedState : State Outside :=
  mkState (mkOutside [] 1) []
    (mkSession (Some [("M", mkPathContent "metadata.json" "M");
                      ("a", mkPathContent "A.sol" "a")])
               None None).

(** The same once assembled: one candidate, no target. *)
Definition looseWrapper : ContractWrapper :=
  freshWrapper
    (mkCheckedContract "M" "Token" (Some "0.8.17")
       [("A.sol", "a")] [("B.sol", "keccak256")] []).

Definition looseState : State Outside :=
  mkState (mkOutside [] 1) []
    (mkSession (Some [("M", mkPathContent "metadata.json" "M");
                      ("a", mkPathContent "A.sol" "a")])
               (Some [("M", looseWrapper)])
               (Some [])).

(** A session that already holds everything the Etherscan request of
    [Example.remote] returns. *)
Definition etherscanState : State Outside :=
  mkState (mkOutside [] 0) []
    (mkSession (Some [("a", mkPathContent "A.sol" "a");
                      ("b", mkPathContent "B.sol" "b");
                      ("etherscan metadata",
                       mkPathContent "metadata.json" "etherscan metadata")])
               None None).

(** A legacy request for two addresses, the second of which is verified in
    [Example.verifiedState]. *)
Definition legacyRequest : LegacyRequest :=
  mkLegacyRequest ["0xdef"; "0xabc"] "1" None NotChosen.

(** The files of a legacy request that needs [Lib.sol]. *)
Definition legacyFiles : list PathBuffer :=
  [mkPathBuffer "metadata.json" "M"; mkPathBuffer "A.sol" "a";
   mkPathBuffer "B.sol" "b"; mkPathBuffer "Lib.sol" "l"].

(** Sources of a JSON input, one of them without content. *)
Definition jsonSources : JsObj.t JsonSource :=
  [("A.sol", mkJsonSource (Some "a"));
   ("B.sol", mkJsonSource None);
   ("C.sol", mkJsonSource (Some "c"))].

End ExampleMore.

(** * Properties *)

(** ** Objects *)
Module JsObjFacts.
Import JsObj.

Lemma get_set_eq {V} (k : string) (v : V) (o : t V) :
  get k (set k v o) = Some v.
Proof.
  induction o as [|[k' v'] r IH]; simpl.
  - now rewrite String.eqb_refl.
  - destruct (String.eqb k k') eqn:E; simpl.
    + now rewrite String.eqb_refl.
    + now rewrite E.
Qed.

Lemma get_set_neq {V} (k k' : string) (v : V) (o : t V) :
  k <> k' -> get k' (set k v o) = get k' o.
Proof.
  intros Hne. induction o as [|[k0 v0] r IH]; simpl.
  - destruct (String.eqb k' k) eqn:E; [|reflexivity].
    apply String.eqb_eq in E. congruence.
  - destruct (String.eqb k k0) eqn:E; simpl.
    + apply String.eqb_eq in E. subst k0.
      destruct (String.eqb k' k) eqn:E'; [|reflexivity].
      apply String.eqb_eq in E'. congruence.
    + now rewrite IH.
Qed.

Lemma set_get_same {V} (k : string) (v : V) (o : t V) :
  get k o = Some v -> set k v o = o.
Proof.
  induction o as [|[k' v'] r IH]; simpl; [discriminate|].
  destruct (String.eqb k k') eqn:E.
  - apply String.eqb_eq in E. intros [= ->]. now subst.
  - intros H. now rewrite IH.
Qed.

Lemma has_set_same {V} (k : string) (v : V) (o : t V) :
  has k (set k v o) = true.
Proof. unfold has. now rewrite get_set_eq. Qed.

Lemma has_set_mono {V} (k k' : string) (v : V) (o : t V) :
  has k' o = true -> has k' (set k v o) = true.
Proof.
  unfold has. intros H.
  destruct (String.eqb k k') eqn:E.
  - apply String.eqb_eq in E. subst. now rewrite get_set_eq.
  - apply String.eqb_neq in E. now rewrite get_set_neq.
Qed.

Lemma get_del_eq {V} (k : string) (o : t V) : get k (del k o) = None.
Proof.
  induction o as [|[k' v'] r IH]; simpl; [reflexivity|].
  destruct (String.eqb k k') eqn:E; simpl; [assumption|].
  now rewrite E.
Qed.

Lemma get_in_keys {V} (k : string) (o : t V) :
  In k (keys o) <-> get k o <> None.
Proof.
  induction o as [|[k' v'] r IH]; simpl.
  - split; [tauto|congruence].
  - destruct (String.eqb k k') eqn:E.
    + apply String.eqb_eq in E. subst. split; [discriminate|auto].
    + apply String.eqb_neq in E. rewrite <- IH. split.
      * intros [H|H]; [congruence|assumption].
      * auto.
Qed.

End JsObjFacts.

(** ** The file store *)
Section FileStoreFacts.
Context {U : Util}.
Import JsObjFacts.

Lemma addSizes_acc (acc : N) (pcs : list PathContent) :
  addSizes acc pcs = (acc + batchSize pcs)%N.
Proof.
  unfold batchSize, addSizes. revert acc.
  induction pcs as [|pc r IH]; intros acc; simpl.
  - lia.
  - rewrite IH. rewrite (IH (contentLength pc)). lia.
Qed.

Lemma storedFiles_init (s : MySession) :
  storedFiles (initInputFiles s) = storedFiles s.
Proof. destruct s as [[f|] w u]; reflexivity. Qed.

Lemma initInputFiles_defined (s : MySession) :
  inputFiles s <> None -> initInputFiles s = s.
Proof. unfold initInputFiles. destruct (inputFiles s); congruence. Qed.

Lemma setInputFiles_stored (s : MySession) :
  setInputFiles (initInputFiles s) (storedFiles s) = initInputFiles s.
Proof.
  unfold initInputFiles, setInputFiles, storedFiles.
  destruct s as [[f|] w u]; reflexivity.
Qed.

(** The size check alone decides whether [saveFiles] throws. *)
Lemma saveFiles_over (pcs : list PathContent) (s : MySession) :
  (MAX_SESSION_SIZE < sessionSize s + batchSize pcs)%N ->
  saveFiles pcs s =
    (initInputFiles s, Throw (mkError PayloadTooLargeError sizeMessage)).
Proof.
  intros H. unfold saveFiles.
  rewrite storedFiles_init, addSizes_acc.
  fold (sessionSize s).
  apply N.ltb_lt in H. now rewrite H.
Qed.

Lemma saveFiles_within (pcs : list PathContent) (s : MySession) :
  (sessionSize s + batchSize pcs <= MAX_SESSION_SIZE)%N ->
  saveFiles pcs s =
    (setInputFiles (initInputFiles s)
       (fst (fold_left saveOne pcs (storedFiles s, 0%N))),
     Ok (snd (fold_left saveOne pcs (storedFiles s, 0%N)))).
Proof.
  intros H. unfold saveFiles.
  rewrite storedFiles_init, addSizes_acc.
  fold (sessionSize s).
  apply N.ltb_ge in H. now rewrite H.
Qed.

(** A batch whose ids are all taken stores nothing and counts nothing. *)
Lemma saveOne_all_present (pcs : list PathContent)
  (files : JsObj.t PathContent) (n : N) :
  (forall pc, In pc pcs -> JsObj.has (generateId (content pc)) files = true) ->
  fold_left saveOne pcs (files, n) = (files, n).
Proof.
  induction pcs as [|pc r IH]; intros H; simpl; [reflexivity|].
  unfold saveOne at 2. simpl.
  rewrite (H pc (or_introl eq_refl)).
  apply IH. intros pc' Hin. apply H. now right.
Qed.

Lemma saveOne_keeps (pcs : list PathContent)
  (acc : JsObj.t PathContent * N) (k : string) :
  JsObj.has k (fst acc) = true ->
  JsObj.has k (fst (fold_left saveOne pcs acc)) = true.
Proof.
  revert acc. induction pcs as [|pc r IH]; intros acc H; simpl; [assumption|].
  apply IH. unfold saveOne.
  destruct (JsObj.has (generateId (content pc)) (fst acc)); [assumption|].
  simpl. now apply has_set_mono.
Qed.

(** After a batch went through the loop, every one of its ids is taken. *)
Lemma saveOne_stores (pcs : list PathContent)
  (acc : JsObj.t PathContent * N) :
  forall pc, In pc pcs ->
    JsObj.has (generateId (content pc)) (fst (fold_left saveOne pcs acc)) = true.
Proof.
  revert acc. induction pcs as [|p r IH]; intros acc pc Hin; simpl in *;
    [contradiction|destruct Hin as [->|Hin]].
  - apply saveOne_keeps. unfold saveOne.
    destruct (JsObj.has (generateId (content pc)) (fst acc)) eqn:E;
      [assumption|]. simpl. apply has_set_same.
  - now apply IH.
Qed.

Lemma length_filler (n : N) : String.length (filler n) = N.to_nat n.
Proof.
  unfold filler. induction n as [|n IH] using N.peano_ind.
  - reflexivity.
  - rewrite N.iter_succ, N2Nat.inj_succ. simpl. now rewrite IH.
Qed.

Lemma contentLength_filler (p : string) (n : N) :
  contentLength (mkPathContent p (filler n)) = n.
Proof.
  unfold contentLength. simpl content.
  rewrite length_filler. apply N2Nat.id.
Qed.

End FileStoreFacts.

Section FileStoreClaims.
Context {U : Util} {World : Type}
        {VER : IVerificationService World}
        {VAL : IValidationService World}
        {NET : Remote World}.
Import JsObjFacts.

Lemma batchSize_single (pc : PathContent) : batchSize [pc] = contentLength pc.
Proof. reflexivity. Qed.

Lemma sessionSize_single (k : string) (pc : PathContent)
  (ws : option ContractWrapperMap) (u : option (list string)) :
  sessionSize (mkSession (Some [(k, pc)]) ws u) = contentLength pc.
Proof. reflexivity. Qed.

(** C5. A batch that takes the session past the cap is refused whole: the
    call throws the capacity error, the files held are the ones held
    before, candidates and unused paths are untouched (the session object
    is the same but for an undefined store now being an empty one); a batch
    within the cap passes the size check. *)
Theorem saveFiles_capacity_atomic (pathContents : list PathContent)
  (session : MySession) :
  ((MAX_SESSION_SIZE < sessionSize session + batchSize pathContents)%N ->
   snd (saveFiles pathContents session)
     = Throw (mkError PayloadTooLargeError sizeMessage)
   /\ storedFiles (fst (saveFiles pathContents session)) = storedFiles session
   /\ contractWrappers (fst (saveFiles pathContents session))
      = contractWrappers session
   /\ unusedSources (fst (saveFiles pathContents session))
      = unusedSources session
   /\ (inputFiles session <> None ->
       fst (saveFiles pathContents session) = session))
  /\ ((sessionSize session + batchSize pathContents <= MAX_SESSION_SIZE)%N ->
      exists n, snd (saveFiles pathContents session) = Ok n).
Proof.
  split; intros H.
  - rewrite (saveFiles_over _ _ H). simpl fst. simpl snd.
    split; [reflexivity|].
    split; [apply storedFiles_init|].
    split; [destruct session as [[f|] w u]; reflexivity|].
    split; [destruct session as [[f|] w u]; reflexivity|].
    apply initInputFiles_defined.
  - rewrite (saveFiles_within _ _ H). eexists. reflexivity.
Qed.

(** C10. Whether [saveFiles] throws is decided by the session's size plus
    the size of every incoming file, present or not; so there is a session
    within the cap and a one-file batch already stored in it (the loop
    would store nothing and count 0) for which the call throws. *)
Theorem saveFiles_counts_stored_files :
  (forall pcs s,
     (exists e, snd (saveFiles pcs s) = Throw e)
     <-> (MAX_SESSION_SIZE < sessionSize s + batchSize pcs)%N)
  /\ exists s pc,
       JsObj.has (generateId (content pc)) (storedFiles s) = true
       /\ fold_left saveOne [pc] (storedFiles s, 0%N) = (storedFiles s, 0%N)
       /\ (sessionSize s <= MAX_SESSION_SIZE)%N
       /\ saveFiles [pc] s
          = (s, Throw (mkError PayloadTooLargeError sizeMessage)).
Proof.
  split.
  - intros pcs s. split.
    + intros [e He].
      destruct (N.lt_ge_cases MAX_SESSION_SIZE (sessionSize s + batchSize pcs))
        as [Hlt|Hge]; [assumption|].
      rewrite (saveFiles_within _ _ Hge) in He. discriminate.
    + intros H. rewrite (saveFiles_over _ _ H). eexists. reflexivity.
  - pose (pc := mkPathContent "Big.sol" (filler 26214401)).
    pose (s := mkSession (Some [(generateId (content pc), pc)]) None None).
    assert (Hlen : contentLength pc = 26214401%N)
      by apply contentLength_filler.
    assert (Hhas : JsObj.has (generateId (content pc)) (storedFiles s) = true).
    { unfold s, storedFiles, JsObj.has. cbn [inputFiles JsObj.get].
      now rewrite String.eqb_refl. }
    exists s, pc. split; [exact Hhas|]. split; [|split].
    + apply saveOne_all_present. intros pc' [<-|[]]. exact Hhas.
    + unfold s. rewrite sessionSize_single, Hlen. unfold MAX_SESSION_SIZE. lia.
    + rewrite saveFiles_over.
      * reflexivity.
      * unfold s. rewrite sessionSize_single, batchSize_single, Hlen.
        unfold MAX_SESSION_SIZE. lia.
Qed.

(** A file larger than half the cap is stored by the first call and makes
    the second call throw. *)
Lemma saveFiles_same_file_twice (pc : PathContent) :
  (contentLength pc <= MAX_SESSION_SIZE)%N ->
  (MAX_SESSION_SIZE < contentLength pc + contentLength pc)%N ->
  saveFiles [pc] Example.emptySession
    = (mkSession (Some [(generateId (content pc), pc)]) None None, Ok 1%N)
  /\ saveFiles [pc] (mkSession (Some [(generateId (content pc), pc)]) None None)
     = (mkSession (Some [(generateId (content pc), pc)]) None None,
        Throw (mkError PayloadTooLargeError sizeMessage)).
Proof.
  intros Hfits Hover. split.
  - rewrite saveFiles_within; [reflexivity|].
    rewrite batchSize_single. exact Hfits.
  - rewrite saveFiles_over; [reflexivity|].
    rewrite sessionSize_single, batchSize_single. exact Hover.
Qed.

(** C6 (as amended). When a batch has been saved and a second batch holds
    only contents the first held, and saving it stays within the cap, the
    second call returns 0 and leaves the session as it was, and the upload
    endpoint then calls no collaborator and changes nothing. *)
Theorem saveFiles_twice_within_cap (first second : list PathContent)
  (s0 s1 : MySession) (n : N) :
  saveFiles first s0 = (s1, Ok n) ->
  (forall pc, In pc second ->
     exists pc', In pc' first /\ content pc' = content pc) ->
  (sessionSize s1 + batchSize second <= MAX_SESSION_SIZE)%N ->
  saveFiles second s1 = (s1, Ok 0%N)
  /\ forall (files : list PathBuffer) (st : State World),
       map toPathContent files = second ->
       session st = s1 ->
       addInputFilesEndpoint files st = (st, Ok tt).
Proof.
  intros H1 Hsame Hcap.
  assert (Hsaved : saveFiles second s1 = (s1, Ok 0%N)).
  { destruct (N.lt_ge_cases MAX_SESSION_SIZE
                (sessionSize s0 + batchSize first)) as [Hlt|Hge].
    - rewrite (saveFiles_over _ _ Hlt) in H1. discriminate.
    - rewrite (saveFiles_within _ _ Hge) in H1.
      injection H1 as Hs1 _.
      assert (Hfiles : storedFiles s1
                = fst (fold_left saveOne first (storedFiles s0, 0%N)))
        by (rewrite <- Hs1; reflexivity).
      assert (Hdef : inputFiles s1 <> None) by (rewrite <- Hs1; discriminate).
      rewrite (saveFiles_within _ _ Hcap).
      rewrite saveOne_all_present.
      + simpl fst. simpl snd. rewrite setInputFiles_stored.
        now rewrite initInputFiles_defined.
      + intros pc Hin. destruct (Hsame pc Hin) as [pc' [Hin' Hc]].
        rewrite Hfiles, <- Hc. now apply saveOne_stores. }
  split; [exact Hsaved|].
  intros files st Hmap Hst. unfold addInputFilesEndpoint.
  rewrite Hmap, Hst, Hsaved. simpl.
  destruct st as [w tr s]. simpl in Hst. now subst.
Qed.

End FileStoreClaims.

(** ** Assembly *)
Section AssemblyFacts.
Context {U : Util} {World : Type} {VAL : IValidationService World}.
Import JsObjFacts.

Lemma keys_set {V} (k : string) (v : V) (o : JsObj.t V) :
  JsObj.keys (JsObj.set k v o)
  = if JsObj.has k o then JsObj.keys o else JsObj.keys o ++ [k].
Proof.
  unfold JsObj.has. induction o as [|[k' v'] r IH]; simpl; [reflexivity|].
  destruct (String.eqb k k') eqn:E; simpl.
  - apply String.eqb_eq in E. now subst.
  - rewrite IH. now destruct (JsObj.get k r).
Qed.

Lemma NoDup_keys_set {V} (k : string) (v : V) (o : JsObj.t V) :
  NoDup (JsObj.keys o) -> NoDup (JsObj.keys (JsObj.set k v o)).
Proof.
  intros H. rewrite keys_set. destruct (JsObj.has k o) eqn:E; [assumption|].
  apply NoDup_app; [assumption|repeat constructor; simpl; tauto|].
  intros x Hx [Heq|[]]. subst x. apply get_in_keys in Hx.
  unfold JsObj.has in E. destruct (JsObj.get k o); congruence.
Qed.

Lemma NoDup_pendingContracts (contracts : list CheckedContract) :
  NoDup (JsObj.keys (pendingContracts contracts)).
Proof.
  unfold pendingContracts.
  enough (H : forall acc : ContractWrapperMap, NoDup (JsObj.keys acc) ->
            NoDup (JsObj.keys
              (fold_left (fun acc c =>
                 JsObj.set (generateId (metadataRaw c)) (freshWrapper c) acc)
                 contracts acc))) by (apply H; constructor).
  induction contracts as [|c r IH]; intros acc H; simpl; [assumption|].
  apply IH. now apply NoDup_keys_set.
Qed.

Lemma get_mergeOne_eq (ws : ContractWrapperMap) (id : string)
  (new : ContractWrapper) :
  JsObj.get id (mergeOne ws (id, new)) = Some (mergedInto ws id new).
Proof.
  unfold mergeOne, mergedInto. simpl.
  destruct (JsObj.get id ws); apply get_set_eq.
Qed.

Lemma get_mergeOne_neq (ws : ContractWrapperMap) (k id : string)
  (new : ContractWrapper) :
  k <> id -> JsObj.get id (mergeOne ws (k, new)) = JsObj.get id ws.
Proof.
  intros H. unfold mergeOne. simpl.
  destruct (JsObj.get k ws); now apply get_set_neq.
Qed.

Lemma get_fold_mergeOne_other (l : ContractWrapperMap)
  (ws : ContractWrapperMap) (id : string) :
  JsObj.get id l = None ->
  JsObj.get id (fold_left mergeOne l ws) = JsObj.get id ws.
Proof.
  revert ws. induction l as [|[k v] r IH]; intros ws H; simpl in *;
    [reflexivity|].
  destruct (String.eqb id k) eqn:E; [discriminate|].
  rewrite (IH _ H). apply get_mergeOne_neq.
  apply String.eqb_neq in E. congruence.
Qed.

Lemma get_fold_mergeOne (l : ContractWrapperMap) (ws : ContractWrapperMap)
  (id : string) (new : ContractWrapper) :
  NoDup (JsObj.keys l) ->
  JsObj.get id l = Some new ->
  JsObj.get id (fold_left mergeOne l ws) = Some (mergedInto ws id new).
Proof.
  revert ws. induction l as [|[k v] r IH]; intros ws Hnd H; simpl in *;
    [discriminate|].
  inversion Hnd as [|? ? Hnotin Hnd']; subst.
  destruct (String.eqb id k) eqn:E.
  - apply String.eqb_eq in E. subst k. injection H as ->.
    rewrite get_fold_mergeOne_other.
    + apply get_mergeOne_eq.
    + destruct (JsObj.get id r) eqn:G; [|reflexivity].
      exfalso. apply Hnotin. apply get_in_keys. congruence.
  - rewrite (IH _ Hnd' H). unfold mergedInto.
    rewrite get_mergeOne_neq; [reflexivity|].
    apply String.eqb_neq in E. congruence.
Qed.

Lemma mergedInto_sources (ws : ContractWrapperMap) (id : string)
  (new : ContractWrapper) :
  solidity (contract (mergedInto ws id new)) = solidity (contract new)
  /\ missing (contract (mergedInto ws id new)) = missing (contract new).
Proof. unfold mergedInto. destruct (JsObj.get id ws); split; reflexivity. Qed.

Lemma storedWrappers_updateUnused (u : list string) (s : MySession) :
  storedWrappers (updateUnused u s) = storedWrappers s.
Proof. reflexivity. Qed.

(** C7. When [checkFiles] throws, the paths of all the files handed to it
    become the session's unused list, and the candidate map and the file
    store are the objects they were. *)
Theorem validateContracts_checkFiles_throws (st : State World) (w : World)
  (e : JsError) :
  checkFiles (world st) (sessionPathBuffers (session st)) = (w, Throw e) ->
  unusedSources (session (validateContracts st))
    = Some (map path (JsObj.values (storedFiles (session st))))
  /\ contractWrappers (session (validateContracts st))
     = contractWrappers (session st)
  /\ inputFiles (session (validateContracts st)) = inputFiles (session st).
Proof.
  intros H. unfold validateContracts. rewrite H. simpl.
  repeat split. f_equal. unfold sessionPathBuffers.
  rewrite map_map. reflexivity.
Qed.

(** What a pass leaves of a candidate's sources. After a pass in which
    [checkFiles] returned, a candidate whose id the report names holds
    exactly the report's resolved and missing sources: the two assignments
    undo what the copy loop before them did. Any other candidate is the one
    it was. Hence the two sets are disjoint when the report's are, and a
    path resolved before is still resolved, and the union has not shrunk,
    only when the report still covers them. *)
Lemma validateContracts_sources_follow_report (st : State World)
  (w : World) (contracts : list CheckedContract) (unused : list string)
  (id : string) :
  checkFiles (world st) (sessionPathBuffers (session st))
    = (w, Ok (contracts, unused)) ->
  match JsObj.get id (pendingContracts contracts) with
  | None =>
      JsObj.get id (storedWrappers (session (validateContracts st)))
      = JsObj.get id (storedWrappers (session st))
  | Some new =>
      exists cw,
        JsObj.get id (storedWrappers (session (validateContracts st)))
          = Some cw
        /\ solidity (contract cw) = solidity (contract new)
        /\ missing (contract cw) = missing (contract new)
        /\ (disjointPaths (resolvedPaths new) (missingPaths new) ->
            disjointPaths (resolvedPaths cw) (missingPaths cw))
        /\ forall old,
             JsObj.get id (storedWrappers (session st)) = Some old ->
             incl (resolvedPaths old) (resolvedPaths new) ->
             incl (missingPaths old) (resolvedPaths new ++ missingPaths new) ->
             disjointPaths (resolvedPaths new) (missingPaths new) ->
             incl (resolvedPaths old ++ missingPaths old)
                  (resolvedPaths cw ++ missingPaths cw)
             /\ forall p, In p (resolvedPaths old) -> ~ In p (missingPaths cw)
  end.
Proof.
  intros H. unfold validateContracts. rewrite H.
  cbn [session]. rewrite storedWrappers_updateUnused.
  unfold setContractWrappers, storedWrappers at 1. cbn [contractWrappers].
  destruct (JsObj.get id (pendingContracts contracts)) as [new|] eqn:G.
  - rewrite (get_fold_mergeOne _ _ _ _ (NoDup_pendingContracts contracts) G).
    destruct (mergedInto_sources (storedWrappers (session st)) id new)
      as [Hs Hm].
    eexists. split; [reflexivity|]. split; [exact Hs|]. split; [exact Hm|].
    unfold resolvedPaths, missingPaths. rewrite Hs, Hm.
    split; [tauto|].
    intros old _ Hres Hmis Hdis. split.
    + intros p Hp. apply in_app_or in Hp. destruct Hp as [Hp|Hp].
      * apply in_or_app. left. now apply Hres.
      * now apply Hmis.
    + intros p Hp. apply Hdis. now apply Hres.
  - now apply get_fold_mergeOne_other.
Qed.

End AssemblyFacts.

(** ** The verification pass *)
Section OrchestratorFacts.
Context {U : Util} {World : Type}
        {VER : IVerificationService World}
        {VAL : IValidationService World}
        {NET : Remote World}.
Import JsObjFacts.

Lemma statusIs_true (x : option string) (s : string) :
  statusIs x s = true <-> x = Some s.
Proof.
  unfold statusIs. destruct x as [t|]; [|split; discriminate].
  rewrite String.eqb_eq. split; congruence.
Qed.

Lemma orElse_truthy (x : option string) (d : string) :
  truthy x = true -> Some (orElse x d) = x.
Proof.
  unfold orElse. intros H. rewrite H. destruct x; [reflexivity|discriminate].
Qed.

Lemma injectCalls_app (a b : list Event) :
  injectCalls (a ++ b) = injectCalls a + injectCalls b.
Proof. unfold injectCalls. now rewrite filter_app, length_app. Qed.

Lemma get_putWrapper_eq (s : MySession) (id : string) (cw : ContractWrapper) :
  JsObj.get id (storedWrappers (putWrapper s id cw)) = Some cw.
Proof. apply get_set_eq. Qed.

Lemma get_putWrapper_neq (s : MySession) (k id : string)
  (cw : ContractWrapper) :
  k <> id ->
  JsObj.get id (storedWrappers (putWrapper s k cw))
  = JsObj.get id (storedWrappers s).
Proof. intros H. now apply get_set_neq. Qed.

Lemma inputFiles_putWrapper (s : MySession) (id : string)
  (cw : ContractWrapper) :
  inputFiles (putWrapper s id cw) = inputFiles s.
Proof. reflexivity. Qed.

(** Fetching missing sources adds no call to [inject]. *)
Lemma checkAndFetchMissing_trace (c : CheckedContract) (w : World)
  (tr : list Event) :
  exists new,
    snd (fst (checkAndFetchMissing c w tr)) = tr ++ new
    /\ injectCalls new = 0.
Proof.
  unfold checkAndFetchMissing. destruct (negb (isValid c false)); simpl.
  - exists [EvFetchMissing c]. split; reflexivity.
  - exists []. now rewrite app_nil_r.
Qed.

Ltac one_call d :=
  exists [EvInject d];
  split; [reflexivity | split; unfold injectCalls; simpl; lia].

(** The [try] block: one call of [inject], or two when the first returned
    [extra-file-input-bug]. *)
Lemma injectWithRetry_trace (w : World) (tr : list Event) (d : InputData)
  (files : option (JsObj.t PathContent)) :
  exists new,
    snd (fst (injectWithRetry w tr d files)) = tr ++ new
    /\ injectCalls new <= 2
    /\ (1 < injectCalls new ->
        exists w1 m1,
          inject w d = (w1, Ok m1)
          /\ match_status m1 = Some "extra-file-input-bug").
Proof.
  unfold injectWithRetry.
  destruct (inject w d) as [w1 [m1|e1]] eqn:E1; [|one_call d].
  destruct (statusIs (match_status m1) "extra-file-input-bug") eqn:S1;
    [|one_call d].
  apply statusIs_true in S1.
  destruct files as [o|]; [|one_call d].
  destruct (useAllSources w1 (input_contract d)
              (map toPathBuffer (JsObj.values o))) as [w2 [cAll|e2]] eqn:E2.
  - eexists [EvInject d; EvUseAllSources _ _; EvInject _].
    split; [|split].
    + destruct (inject w2 _) as [w3 [m2|e3]]; simpl;
        [destruct (statusIs (match_status m2) "perfect"
                   || statusIs (match_status m2) "partial")|];
        simpl; now rewrite <- !app_assoc.
    + unfold injectCalls. simpl. lia.
    + intros _. eauto.
  - eexists [EvInject d; EvUseAllSources _ _].
    split; [simpl; now rewrite <- app_assoc|].
    split; unfold injectCalls; simpl; lia.
Qed.

(** C1. For a candidate that passes the gate and has a stored match, the
    pass records that match on the candidate (its status, or "error" when
    the stored status is empty; its message; its timestamp) and makes no
    call of [inject]: the only call it adds after the fetch is the lookup. *)
Theorem verifyOne_adopts_stored_match (st : State World) (id : string)
  (cw : ContractWrapper) (w1 : World) (tr1 : list Event)
  (c1 : CheckedContract) (m : Match) (rest : list Match) :
  JsObj.get id (storedWrappers (session st)) = Some cw ->
  checkAndFetchMissing (contract cw) (world st) (trace st) = (w1, tr1, c1) ->
  isVerifiable (setContract cw c1) = true ->
  findByAddress w1 (address cw) (chainId cw) = Ok (m :: rest) ->
  exists st',
    verifyOne st id = (st', Ok tt)
    /\ world st' = w1
    /\ trace st' = tr1 ++ [EvFindByAddress (address cw) (chainId cw)]
    /\ injectCalls (trace st') = injectCalls (trace st)
    /\ exists cw',
         JsObj.get id (storedWrappers (session st')) = Some cw'
         /\ status cw' = Some (orElse (match_status m) "error")
         /\ (truthy (match_status m) = true -> status cw' = match_status m)
         /\ statusMessage cw' = match_message m
         /\ storageTimestamp cw' = match_storageTimestamp m.
Proof.
  intros Hget Hfetch Hgate Hfound.
  unfold verifyOne. rewrite Hget, Hfetch, Hgate. simpl negb. cbv iota.
  cbn [address chainId setContract]. rewrite Hfound.
  eexists. split; [reflexivity|]. cbn [world trace session].
  split; [reflexivity|]. split; [reflexivity|]. split.
  - destruct (checkAndFetchMissing_trace (contract cw) (world st) (trace st))
      as [new [Htr Hnew]].
    rewrite Hfetch in Htr. simpl in Htr. subst tr1.
    rewrite !injectCalls_app, Hnew. unfold injectCalls. simpl. lia.
  - eexists. split; [apply get_putWrapper_eq|].
    cbn [status statusMessage storageTimestamp recordMatch].
    split; [reflexivity|]. split; [|split; reflexivity].
    apply orElse_truthy.
Qed.

End OrchestratorFacts.

Section OrchestratorClaims.
Context {U : Util} {World : Type}
        {VER : IVerificationService World}
        {VAL : IValidationService World}
        {NET : Remote World}.
Import JsObjFacts.

(** What one iteration adds to the trace. *)
Lemma verifyOne_trace (st : State World) (id : string) :
  exists new,
    trace (fst (verifyOne st id)) = trace st ++ new
    /\ injectCalls new <= 2
    /\ (1 < injectCalls new ->
        exists cw w1 tr1 c1 w2 m1,
          JsObj.get id (storedWrappers (session st)) = Some cw
          /\ checkAndFetchMissing (contract cw) (world st) (trace st)
             = (w1, tr1, c1)
          /\ inject w1 (mkInputData [address cw] (chainId cw) c1)
             = (w2, Ok m1)
          /\ match_status m1 = Some "extra-file-input-bug").
Proof.
  unfold verifyOne.
  destruct (JsObj.get id (storedWrappers (session st))) as [cw|] eqn:Hget.
  2:{ exists []. rewrite app_nil_r. split; [reflexivity|].
      split; unfold injectCalls; simpl; lia. }
  destruct (checkAndFetchMissing_trace (contract cw) (world st) (trace st))
    as [new0 [Htr0 H0]].
  destruct (checkAndFetchMissing (contract cw) (world st) (trace st))
    as [[w1 tr1] c1] eqn:Hfetch.
  simpl in Htr0. subst tr1.
  destruct (isVerifiable (setContract cw c1)); simpl negb; cbv iota.
  2:{ exists new0. split; [reflexivity|]. split; lia. }
  cbn [address chainId setContract].
  destruct (findByAddress w1 (address cw) (chainId cw)) as [found|e].
  2:{ exists (new0 ++ [EvFindByAddress (address cw) (chainId cw)]).
      cbn [fst trace]. rewrite app_assoc. split; [reflexivity|].
      rewrite injectCalls_app, H0. split; unfold injectCalls; simpl; lia. }
  destruct found as [|m rest].
  - destruct (injectWithRetry_trace w1
                ((trace st ++ new0)
                 ++ [EvFindByAddress (address cw) (chainId cw)])
                (mkInputData [address cw] (chainId cw) c1)
                (inputFiles (putWrapper (session st) id (setContract cw c1))))
      as [new1 [Htr1 [Hle Htwo]]].
    destruct (injectWithRetry _ _ _ _) as [[w3 tr3] m3].
    simpl in Htr1. subst tr3. cbn [fst trace].
    exists (new0 ++ [EvFindByAddress (address cw) (chainId cw)] ++ new1).
    split; [now rewrite !app_assoc|].
    rewrite !injectCalls_app, H0.
    change (injectCalls [EvFindByAddress (address cw) (chainId cw)]) with 0.
    split; [simpl; lia|]. intros Hgt.
    destruct (Htwo ltac:(simpl in Hgt; lia)) as [w2 [m1 [Hinj Hst]]].
    exists cw, w1, (trace st ++ new0), c1, w2, m1. auto.
  - exists (new0 ++ [EvFindByAddress (address cw) (chainId cw)]).
    cbn [fst trace]. rewrite app_assoc. split; [reflexivity|].
    rewrite injectCalls_app, H0. split; unfold injectCalls; simpl; lia.
Qed.

(** C3. When the first attempt returns [extra-file-input-bug], the pass
    expands the contract with all the session's files, calls [inject] once
    more with the expanded contract and nothing after it, and the status it
    records is the status of that second call, be it [perfect], [partial]
    or [extra-file-input-bug] again. The message and timestamp recorded
    are the second call's unless it returned [extra-file-input-bug], and
    the first call's then. *)
Theorem verifyOne_retry_status (st : State World) (id : string)
  (cw : ContractWrapper) (w1 w2 w3 w4 : World) (tr1 : list Event)
  (c1 cAll : CheckedContract) (files : JsObj.t PathContent)
  (m1 m2 : Match) :
  JsObj.get id (storedWrappers (session st)) = Some cw ->
  checkAndFetchMissing (contract cw) (world st) (trace st) = (w1, tr1, c1) ->
  isVerifiable (setContract cw c1) = true ->
  findByAddress w1 (address cw) (chainId cw) = Ok [] ->
  inputFiles (session st) = Some files ->
  inject w1 (mkInputData [address cw] (chainId cw) c1) = (w2, Ok m1) ->
  match_status m1 = Some "extra-file-input-bug" ->
  useAllSources w2 c1 (map toPathBuffer (JsObj.values files))
    = (w3, Ok cAll) ->
  inject w3 (mkInputData [address cw] (chainId cw) cAll) = (w4, Ok m2) ->
  In (match_status m2)
     [Some "perfect"; Some "partial"; Some "extra-file-input-bug"] ->
  exists st',
    verifyOne st id = (st', Ok tt)
    /\ world st' = w4
    /\ trace st'
       = tr1 ++ [EvFindByAddress (address cw) (chainId cw);
                 EvInject (mkInputData [address cw] (chainId cw) c1);
                 EvUseAllSources c1 (map toPathBuffer (JsObj.values files));
                 EvInject (mkInputData [address cw] (chainId cw) cAll)]
    /\ exists cw',
         JsObj.get id (storedWrappers (session st')) = Some cw'
         /\ status cw' = match_status m2
         /\ (match_status m2 <> Some "extra-file-input-bug" ->
             statusMessage cw' = match_message m2
             /\ storageTimestamp cw' = match_storageTimestamp m2)
         /\ (match_status m2 = Some "extra-file-input-bug" ->
             statusMessage cw' = match_message m1
             /\ storageTimestamp cw' = match_storageTimestamp m1).
Proof.
  intros Hget Hfetch Hgate Hfound Hfiles Hinj1 Hst1 Huse Hinj2 Hst2.
  unfold verifyOne. rewrite Hget, Hfetch, Hgate. simpl negb. cbv iota.
  cbn [address chainId setContract]. rewrite Hfound.
  unfold injectWithRetry. rewrite Hinj1.
  rewrite (proj2 (statusIs_true _ _) Hst1).
  rewrite inputFiles_putWrapper, Hfiles. cbn [input_contract addresses chain].
  rewrite Huse, Hinj2.
  assert (Hrec : forall m, match_status m = match_status m2 ->
            status (recordMatch (setContract cw c1) m) = match_status m2).
  { intros m Hm. cbn [status recordMatch]. rewrite Hm.
    apply orElse_truthy.
    destruct Hst2 as [<-|[<-|[<-|[]]]]; reflexivity. }
  destruct (statusIs (match_status m2) "perfect"
            || statusIs (match_status m2) "partial") eqn:Hadopt.
  - eexists. split; [reflexivity|]. cbn [world trace session].
    split; [reflexivity|]. split; [now rewrite <- !app_assoc|].
    eexists. split; [apply get_putWrapper_eq|].
    split; [now apply Hrec|]. split; [intros _; split; reflexivity|].
    intros Hbug. rewrite Hbug in Hadopt. discriminate Hadopt.
  - assert (Hbug : match_status m2 = Some "extra-file-input-bug").
    { destruct Hst2 as [H|[H|[H|[]]]]; rewrite <- H in *;
        try reflexivity; simpl in Hadopt; discriminate. }
    eexists. split; [reflexivity|]. cbn [world trace session].
    split; [reflexivity|]. split; [now rewrite <- !app_assoc|].
    eexists. split; [apply get_putWrapper_eq|].
    split; [apply Hrec; congruence|]. split; [congruence|].
    intros _. split; reflexivity.
Qed.

(** What the whole loop adds to the trace. *)
Lemma verifyValidated_trace (ids : list string) (st : State World) :
  exists new,
    trace (fst (verifyValidated ids st)) = trace st ++ new
    /\ injectCalls new <= 2 * length ids.
Proof.
  revert st. induction ids as [|id rest IH]; intros st; simpl.
  - exists []. rewrite app_nil_r. split; [reflexivity|].
    unfold injectCalls. simpl. lia.
  - destruct (verifyOne_trace st id) as [new1 [Htr1 [Hle1 _]]].
    destruct (verifyOne st id) as [st1 [[]|e]]; simpl in Htr1.
    + destruct (IH st1) as [new2 [Htr2 Hle2]].
      exists (new1 ++ new2). rewrite Htr2, Htr1, app_assoc.
      split; [reflexivity|]. rewrite injectCalls_app. lia.
    + exists new1. split; [exact Htr1|]. lia.
Qed.

(** C4. One iteration of the pass calls [inject] at most twice, and twice
    only when the first call returned [extra-file-input-bug]; whatever the
    second call returns, no third follows. Over a whole pass that is at
    most two calls per candidate. *)
Theorem verifyOne_inject_at_most_twice (st : State World) :
  (forall id,
     exists new,
       trace (fst (verifyOne st id)) = trace st ++ new
       /\ injectCalls new <= 2
       /\ (1 < injectCalls new ->
           exists cw w1 tr1 c1 w2 m1,
             JsObj.get id (storedWrappers (session st)) = Some cw
             /\ checkAndFetchMissing (contract cw) (world st) (trace st)
                = (w1, tr1, c1)
             /\ inject w1 (mkInputData [address cw] (chainId cw) c1)
                = (w2, Ok m1)
             /\ match_status m1 = Some "extra-file-input-bug"))
  /\ forall ids,
       exists new,
         trace (fst (verifyValidated ids st)) = trace st ++ new
         /\ injectCalls new <= 2 * length ids.
Proof.
  split.
  - intros id. apply verifyOne_trace.
  - intros ids. apply verifyValidated_trace.
Qed.

End OrchestratorClaims.

(** ** The verification target *)
Section TargetFacts.
Context {U : Util} {World : Type}
        {VER : IVerificationService World}
        {VAL : IValidationService World}
        {NET : Remote World}.
Import JsObjFacts.




Lemma verifyOne_target (st : State World) (k id : string)
  (cw : ContractWrapper) :
  JsObj.get id (storedWrappers (session st)) = Some cw ->
  keepsTarget cw (fst (verifyOne st k)) id.
Proof.
  intros Hget. unfold keepsTarget, verifyOne.
  destruct (JsObj.get k (storedWrappers (session st))) as [cwk|] eqn:Hk;
    [|exists cw; auto].
  destruct (checkAndFetchMissing (contract cwk) (world st) (trace st))
    as [[w1 tr1] c1].
  assert (Hsame : k = id -> cwk = cw) by (intros ->; congruence).
  assert (Hput : forall s cwk',
            address cwk' = address cwk -> chainId cwk' = chainId cwk ->
            (k <> id -> JsObj.get id (storedWrappers s) = Some cw) ->
            exists cw', JsObj.get id (storedWrappers (putWrapper s k cwk'))
                        = Some cw'
                        /\ address cw' = address cw
                        /\ chainId cw' = chainId cw).
  { intros s cwk' Ha Hc Hne.
    destruct (String.eqb k id) eqn:E.
    - apply String.eqb_eq in E. exists cwk'.
      rewrite <- (Hsame E). subst k. rewrite get_putWrapper_eq. auto.
    - apply String.eqb_neq in E. exists cw.
      rewrite get_putWrapper_neq by assumption. auto. }
  destruct (isVerifiable (setContract cwk c1)); simpl negb; cbv iota.
  2:{ cbn [fst session]. apply Hput; auto. }
  destruct (findByAddress w1 _ _) as [found|e].
  2:{ cbn [fst session]. apply Hput; auto. }
  destruct (match found with
            | [] => injectWithRetry _ _ _ _
            | m :: _ => _
            end) as [[w3 tr3] m3].
  cbn [fst session]. apply Hput; [reflexivity|reflexivity|].
  intros Hne. rewrite get_putWrapper_neq by assumption. auto.
Qed.

Lemma keepsTarget_trans (cw cw1 : ContractWrapper) (st : State World)
  (id : string) :
  address cw1 = address cw -> chainId cw1 = chainId cw ->
  keepsTarget cw1 st id -> keepsTarget cw st id.
Proof.
  intros Ha Hc [cw' [Hget [Ha' Hc']]]. exists cw'. split; [assumption|].
  split; congruence.
Qed.

Lemma verifyValidated_target (ids : list string) (st : State World)
  (id : string) (cw : ContractWrapper) :
  JsObj.get id (storedWrappers (session st)) = Some cw ->
  keepsTarget cw (fst (verifyValidated ids st)) id.
Proof.
  revert st cw. induction ids as [|k rest IH]; intros st cw Hget; simpl.
  - exists cw. auto.
  - destruct (verifyOne_target st k id cw Hget) as [cw1 [Hget1 [Ha Hc]]].
    destruct (verifyOne st k) as [st1 [[]|e]]; simpl in Hget1.
    + eapply keepsTarget_trans; [exact Ha|exact Hc|]. now apply IH.
    + exists cw1. auto.
Qed.





Lemma has_set_present {V} (k k' : string) (v v0 : V) (o : JsObj.t V) :
  JsObj.get k o = Some v0 ->
  JsObj.has k' (JsObj.set k v o) = JsObj.has k' o.
Proof.
  intros H. unfold JsObj.has. destruct (String.eqb k k') eqn:E.
  - apply String.eqb_eq in E. subst k'. now rewrite get_set_eq, H.
  - apply String.eqb_neq in E. now rewrite get_set_neq.
Qed.



(** What one iteration does, by what the id reads. *)
Lemma receiveOne_own (acc : ContractWrapperMap * Verifiable)
  (rc : SendableContract) (cw0 : ContractWrapper) :
  JsObj.get (verificationId rc) (fst acc) = Some cw0 ->
  exists v,
    receiveOne acc rc
    = Ok (JsObj.set (verificationId rc)
            (setTarget cw0 (sc_address rc) (sc_chainId rc)) (fst acc), v)
    /\ incl (JsObj.keys v) (verificationId rc :: JsObj.keys (snd acc)).
Proof.
  intros H. unfold receiveOne. rewrite H. eexists. split; [reflexivity|].
  destruct (isVerifiable _); [|apply incl_tl, incl_refl].
  rewrite keys_set. destruct (JsObj.has _ _); [apply incl_tl, incl_refl|].
  intros x Hx. apply in_app_or in Hx.
  destruct Hx as [Hx|[<-|[]]]; [now right|now left].
Qed.

Lemma receiveOne_absent (acc : ContractWrapperMap * Verifiable)
  (rc : SendableContract) :
  JsObj.get (verificationId rc) (fst acc) = None ->
  receiveOne acc rc
  = if readsInherited (fst acc) (verificationId rc)
    then Throw gateOnInherited else Ok acc.
Proof.
  intros H. unfold receiveOne, readsInherited, JsObj.has. now rewrite H.
Qed.



End TargetFacts.

Section TargetClaims.
Context {U : Util} {World : Type}
        {VER : IVerificationService World}
        {VAL : IValidationService World}
        {NET : Remote World}.
Import JsObjFacts.




End TargetClaims.

(** ** Batch lookup *)
Section BatchLookupFacts.
Context {World : Type} {VER : IVerificationService World}.
Import JsObjFacts.

Lemma get_lookupOne_neq (w : World) (a k c : string)
  (map : JsObj.t CheckEntry) :
  a <> k -> JsObj.get k (lookupOne w a map c) = JsObj.get k map.
Proof.
  intros Hne. unfold lookupOne, lookupTry.
  destruct (findAllByAddress w a c) as [[|m rest]|e]; try reflexivity.
  destruct (JsObj.get a _) as [e|] eqn:G; [|reflexivity].
  destruct (entry_chainIds e); [|reflexivity].
  rewrite get_set_neq by assumption.
  destruct (negb (JsObj.has a map)); [|reflexivity].
  now apply get_set_neq.
Qed.

Lemma get_lookupAddress_neq (w : World) (chainIds : list string)
  (a k : string) (map : JsObj.t CheckEntry) :
  a <> k -> JsObj.get k (lookupAddress w chainIds map a) = JsObj.get k map.
Proof.
  intros Hne. unfold lookupAddress.
  assert (H : forall m, JsObj.get k (fold_left (lookupOne w a) chainIds m)
                        = JsObj.get k m).
  { induction chainIds as [|c r IH]; intros m; simpl; [reflexivity|].
    rewrite IH. now apply get_lookupOne_neq. }
  destruct (negb (JsObj.has a _)).
  - rewrite get_set_neq by assumption. apply H.
  - apply H.
Qed.

Lemma lookupOne_noMatch (w : World) (a : string) (chainIds : list string)
  (map : JsObj.t CheckEntry) :
  noMatchOn w chainIds a ->
  fold_left (lookupOne w a) chainIds map = map.
Proof.
  revert map. induction chainIds as [|c r IH]; intros map H; simpl;
    [reflexivity|].
  assert (Hc : lookupOne w a map c = map).
  { unfold lookupOne, lookupTry.
    destruct (H c (or_introl eq_refl)) as [E|[e E]]; now rewrite E. }
  rewrite Hc. apply IH. intros c' Hin. apply H. now right.
Qed.

Lemma lookupAddress_noMatch (w : World) (chainIds : list string)
  (a : string) (map : JsObj.t CheckEntry) :
  noMatchOn w chainIds a ->
  (JsObj.get a map = None \/ JsObj.get a map = Some (falseEntry a)) ->
  JsObj.get a (lookupAddress w chainIds map a) = Some (falseEntry a).
Proof.
  intros Hno Hmap. unfold lookupAddress.
  rewrite (lookupOne_noMatch _ _ _ _ Hno). unfold JsObj.has.
  destruct Hmap as [E|E]; rewrite E; simpl.
  - apply get_set_eq.
  - exact E.
Qed.

Lemma get_in_values {V} (k : string) (v : V) (o : JsObj.t V) :
  JsObj.get k o = Some v -> In v (JsObj.values o).
Proof.
  induction o as [|[k' v'] r IH]; simpl; [discriminate|].
  destruct (String.eqb k k'); [intros [= ->]; now left|auto].
Qed.

(** Over the whole loop: an address without a match ends as a "false"
    entry, whatever else is looked up. *)
Lemma lookup_all_noMatch (w : World) (chainIds addresses : list string)
  (a : string) (map : JsObj.t CheckEntry) :
  noMatchOn w chainIds a ->
  In a addresses ->
  (JsObj.get a map = None \/ JsObj.get a map = Some (falseEntry a)) ->
  JsObj.get a (fold_left (lookupAddress w chainIds) addresses map)
  = Some (falseEntry a).
Proof.
  intros Hno. revert map.
  assert (Hkeep : forall l map,
            JsObj.get a map = Some (falseEntry a) ->
            JsObj.get a (fold_left (lookupAddress w chainIds) l map)
            = Some (falseEntry a)).
  { induction l as [|x r IH]; intros map H; simpl; [assumption|].
    apply IH. destruct (String.eqb x a) eqn:E.
    - apply String.eqb_eq in E. subst x.
      apply lookupAddress_noMatch; auto.
    - apply String.eqb_neq in E. now rewrite get_lookupAddress_neq. }
  induction addresses as [|x r IH]; intros map Hin Hmap; simpl;
    [contradiction|].
  destruct (String.eqb x a) eqn:E.
  - apply String.eqb_eq in E. subst x. apply Hkeep.
    now apply lookupAddress_noMatch.
  - apply String.eqb_neq in E. destruct Hin as [Hx|Hin]; [congruence|].
    apply IH; [assumption|]. now rewrite get_lookupAddress_neq.
Qed.

(** A lookup for [a] leaves the entry of [a] absent or with a chain
    list, and only ever appends to the list. *)
Lemma lookupOne_chainEntry (w : World) (a c : string)
  (map : JsObj.t CheckEntry) :
  (JsObj.get a map = None \/ exists l, chainEntry map a l) ->
  match findAllByAddress w a c with
  | Ok (m :: _) =>
      exists l, chainEntry (lookupOne w a map c) a (l ++ [(c, match_status m)])
                /\ forall l0, chainEntry map a l0 -> l = l0
  | _ => lookupOne w a map c = map
  end.
Proof.
  intros Hgood. unfold lookupOne, lookupTry.
  destruct (findAllByAddress w a c) as [[|m rest]|e]; try reflexivity.
  unfold chainEntry in *. unfold JsObj.has.
  destruct Hgood as [Hnone|[l Hl]].
  - rewrite Hnone. simpl negb. cbv iota. rewrite get_set_eq.
    cbn [entry_chainIds entry_address entry_status].
    exists []. split; [apply get_set_eq|]. intros l0 H0. congruence.
  - rewrite Hl. simpl negb. cbv iota. rewrite Hl.
    cbn [entry_chainIds entry_address entry_status].
    exists l. split; [apply get_set_eq|]. intros l0 H0. congruence.
Qed.

Lemma lookupOne_good (w : World) (a c : string) (map : JsObj.t CheckEntry) :
  (JsObj.get a map = None \/ exists l, chainEntry map a l) ->
  JsObj.get a (lookupOne w a map c) = None
  \/ exists l, chainEntry (lookupOne w a map c) a l.
Proof.
  intros Hgood. pose proof (lookupOne_chainEntry w a c map Hgood) as H.
  destruct (findAllByAddress w a c) as [[|m rest]|e];
    try (rewrite H; exact Hgood).
  destruct H as [l [Hl _]]. right. eauto.
Qed.

Lemma lookupOne_listed_keep (w : World) (a a' c c' : string)
  (st : option string) (map : JsObj.t CheckEntry) :
  listed map a c st -> listed (lookupOne w a' map c') a c st.
Proof.
  intros [l [Hl Hin]]. destruct (String.eqb a' a) eqn:E.
  - apply String.eqb_eq in E. subst a'.
    pose proof (lookupOne_chainEntry w a c' map (or_intror (ex_intro _ l Hl)))
      as H.
    destruct (findAllByAddress w a c') as [[|m rest]|e];
      try (rewrite H; exists l; auto).
    destruct H as [l1 [Hl1 Huniq]]. rewrite (Huniq l Hl) in Hl1.
    eexists. split; [exact Hl1|]. apply in_or_app. now left.
  - apply String.eqb_neq in E. exists l. split; [|assumption].
    unfold chainEntry. now rewrite get_lookupOne_neq.
Qed.

Lemma fold_lookupOne_listed_keep (w : World) (a a' c : string)
  (st : option string) (cs : list string) (map : JsObj.t CheckEntry) :
  listed map a c st -> listed (fold_left (lookupOne w a') cs map) a c st.
Proof.
  revert map. induction cs as [|c' r IH]; intros map H; simpl; [assumption|].
  apply IH. now apply lookupOne_listed_keep.
Qed.

Lemma fold_lookupOne_lists (w : World) (a c : string) (m : Match)
  (rest : list Match) (cs : list string) (map : JsObj.t CheckEntry) :
  (JsObj.get a map = None \/ exists l, chainEntry map a l) ->
  In c cs ->
  findAllByAddress w a c = Ok (m :: rest) ->
  listed (fold_left (lookupOne w a) cs map) a c (match_status m).
Proof.
  intros Hgood Hin Hfound. revert map Hgood.
  induction cs as [|c' r IH]; intros map Hgood; simpl; [contradiction|].
  destruct (String.eqb c' c) eqn:E.
  - apply String.eqb_eq in E. subst c'.
    apply fold_lookupOne_listed_keep.
    pose proof (lookupOne_chainEntry w a c map Hgood) as H.
    rewrite Hfound in H. destruct H as [l [Hl _]].
    eexists. split; [exact Hl|]. apply in_or_app. right. now left.
  - apply String.eqb_neq in E. destruct Hin as [Hc|Hin]; [congruence|].
    apply IH; [assumption|]. now apply lookupOne_good.
Qed.

Lemma listed_has (map : JsObj.t CheckEntry) (a c : string)
  (st : option string) :
  listed map a c st -> JsObj.has a map = true.
Proof. intros [l [Hl _]]. unfold JsObj.has. now rewrite Hl. Qed.

Lemma lookupAddress_listed_keep (w : World) (cs : list string)
  (a a' c : string) (st : option string) (map : JsObj.t CheckEntry) :
  listed map a c st -> listed (lookupAddress w cs map a') a c st.
Proof.
  intros H. unfold lookupAddress.
  pose proof (fold_lookupOne_listed_keep w a a' c st cs map H) as H1.
  destruct (String.eqb a' a) eqn:E.
  - apply String.eqb_eq in E. subst a'.
    now rewrite (listed_has _ _ _ _ H1).
  - apply String.eqb_neq in E.
    destruct (negb (JsObj.has a' _)); [|assumption].
    destruct H1 as [l [Hl Hin]]. exists l. split; [|assumption].
    unfold chainEntry. now rewrite get_set_neq.
Qed.

(** Over the whole loop: a match found for [(a, c)] is listed under [a],
    whatever the other lookups do. *)
Lemma lookup_all_lists (w : World) (cs addresses : list string)
  (a c : string) (m : Match) (rest : list Match)
  (map : JsObj.t CheckEntry) :
  In a addresses -> In c cs ->
  findAllByAddress w a c = Ok (m :: rest) ->
  (JsObj.get a map = None \/ exists l, chainEntry map a l) ->
  listed (fold_left (lookupAddress w cs) addresses map) a c (match_status m).
Proof.
  intros Ha Hc Hfound. revert map.
  assert (Hkeep : forall l map,
            listed map a c (match_status m) ->
            listed (fold_left (lookupAddress w cs) l map) a c
                   (match_status m)).
  { induction l as [|x r IH]; intros map H; simpl; [assumption|].
    apply IH. now apply lookupAddress_listed_keep. }
  induction addresses as [|x r IH]; intros map Hgood; simpl; [contradiction|].
  destruct (String.eqb x a) eqn:E.
  - apply String.eqb_eq in E. subst x. apply Hkeep.
    unfold lookupAddress.
    pose proof (fold_lookupOne_lists w a c m rest cs map Hgood Hc Hfound)
      as H1.
    now rewrite (listed_has _ _ _ _ H1).
  - apply String.eqb_neq in E. destruct Ha as [Hx|Ha]; [congruence|].
    apply IH; [assumption|]. unfold chainEntry.
    now rewrite get_lookupAddress_neq.
Qed.

(** C8. Once the request has passed validation the batch lookup returns
    an array whatever the per-chain lookups do. An address for which every
    requested chain throws or finds nothing is in it with status "false"
    and no chain list; and a match found for an address on a chain is
    listed under that address, whichever other lookups threw. *)
Theorem checkAllByAddresses_reports_false (w : World) (req : CheckRequest) :
  validationErrors req = [] ->
  exists entries,
    checkAllByAddresses w req = Ok entries
    /\ (forall a,
          In a (req_addresses req) ->
          noMatchOn w (req_chainIds req) a ->
          In (falseEntry a) entries)
    /\ (forall a c m rest,
          In a (req_addresses req) ->
          In c (req_chainIds req) ->
          findAllByAddress w a c = Ok (m :: rest) ->
          exists l,
            In (mkCheckEntry a None (Some l)) entries
            /\ In (c, match_status m) l).
Proof.
  intros Hvalid. unfold checkAllByAddresses. rewrite Hvalid. simpl.
  eexists. split; [reflexivity|]. split.
  - intros a Hin Hno. apply (get_in_values a).
    apply lookup_all_noMatch; auto.
  - intros a c m rest Ha Hc Hfound.
    destruct (lookup_all_lists w (req_chainIds req) (req_addresses req)
                a c m rest [] Ha Hc Hfound (or_introl eq_refl))
      as [l [Hl Hin]].
    exists l. split; [|assumption]. now apply (get_in_values a).
Qed.

End BatchLookupFacts.

(** * Concrete runs

    The statements above at the collaborators of [Example]. *)
Module Runs.
Import Example.

(** C1 at a verified target: the stored match is recorded and [inject] is
    not called. *)
Lemma stored_match_adopted :
  exists st',
    @verifyOne util Outside verification validation remote verifiedState "M"
      = (st', Ok tt)
    /\ injectCalls (trace st') = 0
    /\ exists cw',
         JsObj.get "M" (storedWrappers (session st')) = Some cw'
         /\ status cw' = Some "perfect".
Proof.
  destruct (@verifyOne_adopts_stored_match util Outside verification
              validation remote verifiedState "M" boundWrapper
              (mkOutside [("0xabc", "1")] 0) [] tokenContract
              (perfectMatch (Some "0xabc")) []
              eq_refl eq_refl eq_refl eq_refl)
    as [st' [H1 [_ [_ [H4 [cw' [H5 [H6 _]]]]]]]].
  exists st'. split; [exact H1|]. split; [exact H4|].
  exists cw'. split; [exact H5|exact H6].
Defined.

(** C2, broken by the code. [B.sol], fetched and resolved after the first
    upload, is missing again after the second, which adds a file no
    contract uses. In the assembly pass of the second upload the copy loop
    (lines 575-579) alone leaves [B.sol] resolved and not missing; the two
    assignments after it (lines 580-583) put the report's sources in place
    of the result. *)
Lemma resolved_path_missing_again :
  exists st1 st2 cw1 cw2 report unused,
    @addInputFilesEndpoint util Outside verification validation remote
      firstUpload freshState = (st1, Ok tt)
    /\ @addInputFilesEndpoint util Outside verification validation remote
         secondUpload st1 = (st2, Ok tt)
    /\ JsObj.get "M" (storedWrappers (session st1)) = Some cw1
    /\ In "B.sol" (resolvedPaths cw1)
    /\ JsObj.get "M" (storedWrappers (session st2)) = Some cw2
    /\ In "B.sol" (missingPaths cw2)
    /\ ~ In "B.sol" (resolvedPaths cw2)
    /\ @checkFiles Outside validation (world st1)
         (@sessionPathBuffers util (session st2))
       = (world st1, Ok ([report], unused))
    /\ In "B.sol"
         (JsObj.keys (solidity (copyResolved report (contract cw1))))
    /\ ~ In "B.sol"
           (JsObj.keys (missing (copyResolved report (contract cw1))))
    /\ cw2 = mergeWrapper cw1 (freshWrapper report).
Proof.
  do 6 eexists.
  split; [reflexivity|]. split; [reflexivity|]. split; [reflexivity|].
  split; [simpl; tauto|]. split; [reflexivity|].
  split; [simpl; tauto|].
  split; [simpl; intros [H|[]]; discriminate H|].
  split; [reflexivity|].
  split; [simpl; tauto|].
  split; [simpl; tauto|].
  reflexivity.
Qed.

(** C3 at the unverified target: the retry's [perfect] is what is
    recorded. *)
Lemma retry_status_recorded :
  exists st',
    @verifyOne util Outside verification validation remote unverifiedState "M"
      = (st', Ok tt)
    /\ injectCalls (trace st') = 2
    /\ exists cw',
         JsObj.get "M" (storedWrappers (session st')) = Some cw'
         /\ status cw' = Some "perfect".
Proof.
  destruct (@verifyOne_retry_status util Outside verification validation
              remote unverifiedState "M" boundWrapper
              (mkOutside [] 0) (mkOutside [] 0) (mkOutside [] 0)
              (mkOutside [("0xabc", "1")] 0) [] tokenContract
              (setSources tokenContract
                 [("A.sol", "a"); ("B.sol", "b");
                  ("metadata.json", "M"); ("Lib.sol", "l")] [])
              [("M", mkPathContent "metadata.json" "M");
               ("a", mkPathContent "A.sol" "a");
               ("b", mkPathContent "B.sol" "b");
               ("l", mkPathContent "Lib.sol" "l")]
              bugMatch (perfectMatch (Some "0xabc"))
              eq_refl eq_refl eq_refl eq_refl eq_refl eq_refl eq_refl
              eq_refl eq_refl (or_introl eq_refl))
    as [st' [H1 [_ [H3 [cw' [H4 [H5 _]]]]]]].
  exists st'. split; [exact H1|]. split; [rewrite H3; reflexivity|].
  exists cw'. split; [exact H4|exact H5].
Defined.

(** C5 at a file one character past the cap. *)
Lemma huge_file_refused :
  snd (@saveFiles util [hugeFile] emptySession)
    = Throw (mkError PayloadTooLargeError sizeMessage)
  /\ storedFiles (fst (@saveFiles util [hugeFile] emptySession))
     = storedFiles emptySession.
Proof.
  assert (Hover : (MAX_SESSION_SIZE
                   < sessionSize emptySession + batchSize [hugeFile])%N).
  { change (sessionSize emptySession) with 0%N.
    rewrite batchSize_single. unfold hugeFile.
    rewrite contentLength_filler. unfold MAX_SESSION_SIZE. lia. }
  destruct (proj1 (@saveFiles_capacity_atomic util [hugeFile] emptySession)
              Hover) as [H1 [H2 _]].
  split; [exact H1|exact H2].
Defined.

(** C6 (as amended) at a small file. *)
Lemma small_file_twice :
  @saveFiles util [mkPathContent "A.sol" "a"]
    (mkSession (Some [("a", mkPathContent "A.sol" "a")]) None None)
  = (mkSession (Some [("a", mkPathContent "A.sol" "a")]) None None, Ok 0%N).
Proof.
  refine (proj1 (@saveFiles_twice_within_cap util Outside verification
                   validation remote [mkPathContent "A.sol" "a"]
                   [mkPathContent "A.sol" "a"] emptySession
                   (mkSession (Some [("a", mkPathContent "A.sol" "a")])
                      None None)
                   1%N eq_refl _ _)).
  - intros pc Hin. exists pc. split; [exact Hin|reflexivity].
  - vm_compute. discriminate.
Defined.

(** C6 refuted: the same file, larger than half the cap, uploaded twice;
    the second call throws instead of returning 0. *)
Lemma same_file_twice_over_cap :
  exists s1,
    @saveFiles util [bigFile] emptySession = (s1, Ok 1%N)
    /\ @saveFiles util [bigFile] s1
       = (s1, Throw (mkError PayloadTooLargeError sizeMessage)).
Proof.
  eexists. apply (@saveFiles_same_file_twice util bigFile);
    unfold bigFile; rewrite contentLength_filler;
    unfold MAX_SESSION_SIZE; lia.
Qed.

(** C7 at a session without metadata. *)
Lemma rejected_batch_all_unused :
  unusedSources
    (session (@validateContracts util Outside validation orphanState))
    = Some ["A.sol"]
  /\ contractWrappers
       (session (@validateContracts util Outside validation orphanState))
     = None.
Proof.
  destruct (@validateContracts_checkFiles_throws util Outside validation
              orphanState (mkOutside [] 0)
              (mkError ServiceError "Metadata file not found") eq_refl)
    as [H1 [H2 _]].
  split; [exact H1|exact H2].
Defined.

(** C8: ["0xdef"] has no match on chain "1" and chain "0" throws. *)
Lemma unmatched_address_false :
  exists entries,
    @checkAllByAddresses Outside verification
      (mkOutside [("0xabc", "1")] 0) lookupRequest = Ok entries
    /\ In (falseEntry "0xdef") entries.
Proof.
  destruct (@checkAllByAddresses_reports_false Outside verification
              (mkOutside [("0xabc", "1")] 0) lookupRequest eq_refl)
    as [entries [H1 [H2 _]]].
  exists entries. split; [exact H1|].
  apply H2.
  - simpl. tauto.
  - intros c [<-|[<-|[]]].
    + left. reflexivity.
    + right. eexists. reflexivity.
Defined.



End Runs.

(** * Further properties *)

(** ** The file store keeps what it holds *)
Section FileStoreMore.
Context {U : Util}.
Import JsObjFacts.

Lemma saveOne_get_kept (acc : JsObj.t PathContent * N) (p : PathContent)
  (k : string) (pc : PathContent) :
  JsObj.get k (fst acc) = Some pc ->
  JsObj.get k (fst (saveOne acc p)) = Some pc.
Proof.
  intros H. unfold saveOne.
  destruct (JsObj.has (generateId (content p)) (fst acc)) eqn:E;
    [assumption|]. simpl.
  rewrite get_set_neq; [assumption|].
  intros Heq. subst k. unfold JsObj.has in E. now rewrite H in E.
Qed.

Lemma fold_saveOne_get_kept (pcs : list PathContent)
  (acc : JsObj.t PathContent * N) (k : string) (pc : PathContent) :
  JsObj.get k (fst acc) = Some pc ->
  JsObj.get k (fst (fold_left saveOne pcs acc)) = Some pc.
Proof.
  revert acc. induction pcs as [|p r IH]; intros acc H; simpl; [assumption|].
  apply IH. now apply saveOne_get_kept.
Qed.

(** Keys and count grow together, one new key per file counted. *)
Lemma fold_saveOne_count (pcs : list PathContent)
  (acc : JsObj.t PathContent * N) :
  length (JsObj.keys (fst (fold_left saveOne pcs acc))) + N.to_nat (snd acc)
  = length (JsObj.keys (fst acc))
    + N.to_nat (snd (fold_left saveOne pcs acc))
  /\ N.to_nat (snd (fold_left saveOne pcs acc))
     <= N.to_nat (snd acc) + length pcs.
Proof.
  revert acc. induction pcs as [|p r IH]; intros acc; simpl; [lia|].
  destruct (IH (saveOne acc p)) as [H1 H2].
  unfold saveOne in *.
  destruct (JsObj.has (generateId (content p)) (fst acc)) eqn:E.
  - split; lia.
  - simpl in *. rewrite keys_set, E, length_app in H1. simpl in H1.
    rewrite N2Nat.inj_add in *. simpl in *.
    change (N.to_nat 1) with 1 in *. split; lia.
Qed.

(** A successful [saveFiles] never drops or replaces a stored file: what
    was under an id is still there; the count returned is the number of ids
    added, and no more than the batch holds. *)
Theorem saveFiles_keeps_stored_files (pathContents : list PathContent)
  (s s' : MySession) (n : N) :
  saveFiles pathContents s = (s', Ok n) ->
  (forall k pc, JsObj.get k (storedFiles s) = Some pc ->
                JsObj.get k (storedFiles s') = Some pc)
  /\ length (JsObj.keys (storedFiles s'))
     = length (JsObj.keys (storedFiles s)) + N.to_nat n
  /\ N.to_nat n <= length pathContents
  /\ contractWrappers s' = contractWrappers s
  /\ unusedSources s' = unusedSources s.
Proof.
  intros H.
  destruct (N.lt_ge_cases MAX_SESSION_SIZE
              (sessionSize s + batchSize pathContents)) as [Hlt|Hge].
  { rewrite (saveFiles_over _ _ Hlt) in H. discriminate. }
  rewrite (saveFiles_within _ _ Hge) in H. injection H as Hs Hn.
  assert (Hfiles : storedFiles s'
            = fst (fold_left saveOne pathContents (storedFiles s, 0%N)))
    by (rewrite <- Hs; reflexivity).
  destruct (fold_saveOne_count pathContents (storedFiles s, 0%N))
    as [Hc1 Hc2].
  rewrite Hfiles, <- Hn. simpl in Hc1, Hc2.
  split; [intros k pc Hk; now apply fold_saveOne_get_kept|].
  split; [lia|]. split; [lia|].
  rewrite <- Hs. destruct s as [[f|] ws u]; split; reflexivity.
Qed.

Lemma values_set_absent {V} (k : string) (v : V) (o : JsObj.t V) :
  JsObj.has k o = false ->
  JsObj.values (JsObj.set k v o) = JsObj.values o ++ [v].
Proof.
  unfold JsObj.has. induction o as [|[k' v'] r IH]; simpl; [reflexivity|].
  destruct (String.eqb k k'); [discriminate|].
  intros H. simpl. now rewrite IH.
Qed.

Lemma batchSize_app (a b : list PathContent) :
  batchSize (a ++ b) = (batchSize a + batchSize b)%N.
Proof.
  unfold batchSize at 1. unfold addSizes. rewrite fold_left_app.
  fold (addSizes 0%N a). fold (batchSize a).
  fold (addSizes (batchSize a) b). apply addSizes_acc.
Qed.

(** The files stored after the loop weigh no less than those before, and
    no more than those before plus the batch. *)
Lemma fold_saveOne_size (pcs : list PathContent)
  (acc : JsObj.t PathContent * N) :
  (batchSize (JsObj.values (fst acc))
   <= batchSize (JsObj.values (fst (fold_left saveOne pcs acc)))
   <= batchSize (JsObj.values (fst acc)) + batchSize pcs)%N.
Proof.
  revert acc. induction pcs as [|p r IH]; intros acc; simpl.
  - change (batchSize []) with 0%N. lia.
  - specialize (IH (saveOne acc p)).
    change (p :: r) with ([p] ++ r). rewrite batchSize_app, batchSize_single.
    unfold saveOne in *.
    destruct (JsObj.has (generateId (content p)) (fst acc)) eqn:E.
    + lia.
    + simpl in IH. rewrite (values_set_absent _ _ _ E) in IH.
      rewrite batchSize_app, batchSize_single in IH. lia.
Qed.

(** Whatever the session held, after a [saveFiles] that returned it holds
    at most the cap, and no less than before. *)
Theorem saveFiles_result_within_cap (pathContents : list PathContent)
  (s s' : MySession) (n : N) :
  saveFiles pathContents s = (s', Ok n) ->
  (sessionSize s <= sessionSize s' <= MAX_SESSION_SIZE)%N.
Proof.
  intros H.
  destruct (N.lt_ge_cases MAX_SESSION_SIZE
              (sessionSize s + batchSize pathContents)) as [Hlt|Hge].
  { rewrite (saveFiles_over _ _ Hlt) in H. discriminate. }
  rewrite (saveFiles_within _ _ Hge) in H. injection H as Hs _.
  assert (Hfiles : storedFiles s'
            = fst (fold_left saveOne pathContents (storedFiles s, 0%N)))
    by (rewrite <- Hs; reflexivity).
  pose proof (fold_saveOne_size pathContents (storedFiles s, 0%N)) as Hsz.
  unfold sessionSize in *.
  change (addSizes 0%N (JsObj.values (storedFiles s')))
    with (batchSize (JsObj.values (storedFiles s'))).
  change (addSizes 0%N (JsObj.values (storedFiles s)))
    with (batchSize (JsObj.values (storedFiles s))) in *.
  rewrite Hfiles. simpl in Hsz. lia.
Qed.

End FileStoreMore.

(** ** Assembly keeps the candidates *)
Section AssemblyMore.
Context {U : Util} {World : Type} {VAL : IValidationService World}.
Import JsObjFacts.

Lemma sameButSources_refl (cw : ContractWrapper) : sameButSources cw cw.
Proof. repeat split. Qed.

Lemma copyResolved_fields (newC oldC : CheckedContract) :
  metadataRaw (copyResolved newC oldC) = metadataRaw oldC
  /\ name (copyResolved newC oldC) = name oldC
  /\ compilerVersion (copyResolved newC oldC) = compilerVersion oldC
  /\ invalid (copyResolved newC oldC) = invalid oldC.
Proof.
  unfold copyResolved. generalize (solidity newC) as l. intros l.
  revert oldC. induction l as [|pv r IH]; intros oldC; simpl; [auto|].
  destruct (IH (setSources oldC
                  (JsObj.set (fst pv) (snd pv) (solidity oldC))
                  (JsObj.del (fst pv) (missing oldC))))
    as [H1 [H2 [H3 H4]]].
  rewrite H1, H2, H3, H4. auto.
Qed.

Lemma mergeWrapper_sameButSources (old cw new : ContractWrapper) :
  sameButSources old cw -> sameButSources old (mergeWrapper cw new).
Proof.
  intros [H1 [H2 [H3 [H4 [H5 [H6 [H7 [H8 H9]]]]]]]].
  destruct (copyResolved_fields (contract new) (contract cw))
    as [C1 [C2 [C3 C4]]].
  unfold sameButSources, mergeWrapper. simpl.
  rewrite C1, C2, C3, C4. auto 10.
Qed.

Lemma mergeOne_sameButSources (ws : ContractWrapperMap)
  (kv : string * ContractWrapper) (id : string) (old : ContractWrapper) :
  (exists cw, JsObj.get id ws = Some cw /\ sameButSources old cw) ->
  exists cw, JsObj.get id (mergeOne ws kv) = Some cw /\ sameButSources old cw.
Proof.
  intros [cw [Hget Hsame]]. destruct kv as [k new].
  destruct (String.eqb k id) eqn:E.
  - apply String.eqb_eq in E. subst k.
    exists (mergedInto ws id new). split; [apply get_mergeOne_eq|].
    unfold mergedInto. rewrite Hget. now apply mergeWrapper_sameButSources.
  - apply String.eqb_neq in E. exists cw.
    rewrite get_mergeOne_neq by assumption. auto.
Qed.

Lemma fold_mergeOne_sameButSources (l ws : ContractWrapperMap)
  (id : string) (old : ContractWrapper) :
  (exists cw, JsObj.get id ws = Some cw /\ sameButSources old cw) ->
  exists cw, JsObj.get id (fold_left mergeOne l ws) = Some cw
             /\ sameButSources old cw.
Proof.
  revert ws. induction l as [|kv r IH]; intros ws H; simpl; [assumption|].
  apply IH. now apply mergeOne_sameButSources.
Qed.

(** An assembly pass removes no candidate and, on the candidates it finds,
    writes the resolved and missing sources only: target, status, message,
    timestamp, and the contract's metadata, name, compiler version and
    invalid sources stay those of the stored candidate, even when the new
    report differs on them. The stored files are not touched. *)
Theorem validateContracts_keeps_candidates (st : State World) (id : string)
  (old : ContractWrapper) :
  JsObj.get id (storedWrappers (session st)) = Some old ->
  (exists cw,
     JsObj.get id (storedWrappers (session (validateContracts st))) = Some cw
     /\ sameButSources old cw)
  /\ inputFiles (session (validateContracts st)) = inputFiles (session st).
Proof.
  intros Hget. unfold validateContracts.
  destruct (checkFiles (world st) (sessionPathBuffers (session st)))
    as [w [[contracts unused]|e]]; cbn [session].
  - split; [|reflexivity]. rewrite storedWrappers_updateUnused.
    unfold setContractWrappers, storedWrappers at 1. cbn [contractWrappers].
    apply fold_mergeOne_sameButSources. exists old.
    split; [assumption|apply sameButSources_refl].
  - split; [|reflexivity]. rewrite storedWrappers_updateUnused.
    exists old. split; [assumption|apply sameButSources_refl].
Qed.

Lemma pendingContracts_snoc (cs : list CheckedContract) (c : CheckedContract) :
  pendingContracts (cs ++ [c])
  = JsObj.set (generateId (metadataRaw c)) (freshWrapper c)
      (pendingContracts cs).
Proof. unfold pendingContracts. now rewrite fold_left_app. Qed.

(** An id some contract of the batch hashes to is pending, as the bare
    wrapper of a contract of the batch with that id. *)
Lemma pendingContracts_reported (cs : list CheckedContract)
  (c : CheckedContract) :
  In c cs ->
  exists c', In c' cs
             /\ generateId (metadataRaw c') = generateId (metadataRaw c)
             /\ JsObj.get (generateId (metadataRaw c)) (pendingContracts cs)
                = Some (freshWrapper c').
Proof.
  induction cs as [|x cs IH] using rev_ind; [contradiction|].
  intros Hin. rewrite pendingContracts_snoc.
  destruct (String.eqb (generateId (metadataRaw x))
                       (generateId (metadataRaw c))) eqn:E.
  - apply String.eqb_eq in E. exists x.
    split; [apply in_or_app; right; now left|]. split; [assumption|].
    rewrite <- E. apply get_set_eq.
  - apply String.eqb_neq in E.
    apply in_app_or in Hin. destruct Hin as [Hin|[Hx|[]]];
      [|subst x; congruence].
    destruct (IH Hin) as [c' [Hin' [Hid Hget]]].
    exists c'. split; [apply in_or_app; now left|]. split; [assumption|].
    rewrite get_set_neq by assumption. exact Hget.
Qed.

(** A contract the validation service reports under an id the session does
    not hold becomes a candidate with no target and no status: the bare
    wrapper of a reported contract with that id. The unused list becomes
    the service's. *)
Theorem validateContracts_inserts_bare_wrapper (st : State World)
  (w : World) (contracts : list CheckedContract) (unused : list string)
  (c : CheckedContract) :
  checkFiles (world st) (sessionPathBuffers (session st))
    = (w, Ok (contracts, unused)) ->
  In c contracts ->
  JsObj.get (generateId (metadataRaw c)) (storedWrappers (session st))
    = None ->
  (exists c',
     In c' contracts
     /\ generateId (metadataRaw c') = generateId (metadataRaw c)
     /\ JsObj.get (generateId (metadataRaw c))
          (storedWrappers (session (validateContracts st)))
        = Some (freshWrapper c'))
  /\ unusedSources (session (validateContracts st)) = Some unused.
Proof.
  intros Hcheck Hin Hnew. unfold validateContracts. rewrite Hcheck.
  cbn [session]. split; [|reflexivity].
  rewrite storedWrappers_updateUnused.
  unfold setContractWrappers, storedWrappers at 1. cbn [contractWrappers].
  destruct (pendingContracts_reported contracts c Hin)
    as [c' [Hin' [Hid Hget]]].
  exists c'. split; [assumption|]. split; [assumption|].
  rewrite (get_fold_mergeOne _ _ _ _ (NoDup_pendingContracts contracts) Hget).
  unfold mergedInto. now rewrite Hnew.
Qed.

End AssemblyMore.

(** ** What a verification pass touches *)
Section PassMore.
Context {U : Util} {World : Type}
        {VER : IVerificationService World}
        {VAL : IValidationService World}
        {NET : Remote World}.
Import JsObjFacts.

Lemma keys_putWrapper (s : MySession) (id : string) (cw0 cw : ContractWrapper) :
  JsObj.get id (storedWrappers s) = Some cw0 ->
  JsObj.keys (storedWrappers (putWrapper s id cw))
  = JsObj.keys (storedWrappers s).
Proof.
  intros H. unfold putWrapper, setContractWrappers, storedWrappers at 1.
  cbn [contractWrappers]. rewrite keys_set. unfold JsObj.has. now rewrite H.
Qed.

Lemma unusedSources_putWrapper (s : MySession) (id : string)
  (cw : ContractWrapper) :
  unusedSources (putWrapper s id cw) = unusedSources s.
Proof. reflexivity. Qed.

Lemma set_set {V} (k : string) (a b : V) (o : JsObj.t V) :
  JsObj.set k b (JsObj.set k a o) = JsObj.set k b o.
Proof.
  induction o as [|[k' v] r IH]; simpl.
  - now rewrite String.eqb_refl.
  - destruct (String.eqb k k') eqn:E; simpl.
    + now rewrite String.eqb_refl.
    + now rewrite E, IH.
Qed.

Lemma putWrapper_twice (s : MySession) (id : string) (a b : ContractWrapper) :
  putWrapper (putWrapper s id a) id b = putWrapper s id b.
Proof.
  unfold putWrapper, setContractWrappers.
  cbn [inputFiles unusedSources storedWrappers contractWrappers].
  now rewrite set_set.
Qed.

(** How one iteration ends: the state it leaves is the state it found with
    the wrapper under [id] replaced, or the state it found. *)
Lemma verifyOne_shape (st : State World) (id : string) :
  (exists cw0 cw w tr,
     JsObj.get id (storedWrappers (session st)) = Some cw0
     /\ fst (verifyOne st id) = mkState w tr (putWrapper (session st) id cw))
  \/ (JsObj.get id (storedWrappers (session st)) = None
      /\ verifyOne st id
         = (st, Throw (mkError TypeError
                         "Cannot read properties of undefined"))).
Proof.
  unfold verifyOne.
  destruct (JsObj.get id (storedWrappers (session st))) as [cw0|] eqn:Hget;
    [left|right; auto].
  destruct (checkAndFetchMissing (contract cw0) (world st) (trace st))
    as [[w1 tr1] c1].
  destruct (isVerifiable (setContract cw0 c1)); simpl negb; cbv iota.
  2:{ exists cw0, (setContract cw0 c1), w1, tr1. split; reflexivity. }
  destruct (findByAddress w1 _ _) as [found|e].
  2:{ exists cw0, (setContract cw0 c1), w1. eexists. split; reflexivity. }
  destruct (match found with
            | [] => injectWithRetry _ _ _ _
            | m :: _ => _
            end) as [[w3 tr3] m3].
  exists cw0, (recordMatch (setContract cw0 c1) m3), w3, tr3.
  split; [reflexivity|]. cbn [fst]. now rewrite putWrapper_twice.
Qed.

Lemma verifyOne_frame (st : State World) (k : string) :
  inputFiles (session (fst (verifyOne st k))) = inputFiles (session st)
  /\ unusedSources (session (fst (verifyOne st k)))
     = unusedSources (session st)
  /\ JsObj.keys (storedWrappers (session (fst (verifyOne st k))))
     = JsObj.keys (storedWrappers (session st))
  /\ forall id, id <> k ->
       JsObj.get id (storedWrappers (session (fst (verifyOne st k))))
       = JsObj.get id (storedWrappers (session st)).
Proof.
  destruct (verifyOne_shape st k) as [[cw0 [cw [w [tr [Hget Hst]]]]]|[_ Hst]];
    rewrite Hst; cbn [fst session].
  - split; [reflexivity|]. split; [reflexivity|].
    split; [now apply (keys_putWrapper _ _ cw0)|].
    intros id Hne. apply get_putWrapper_neq. congruence.
  - auto.
Qed.

(** What a pass leaves of the candidates: the same ids, and the candidates
    it was not given. *)
Lemma pass_frame (ids : list string) (st : State World) :
  JsObj.keys (storedWrappers (session (fst (verifyValidated ids st))))
  = JsObj.keys (storedWrappers (session st))
  /\ forall id, ~ In id ids ->
       JsObj.get id (storedWrappers (session (fst (verifyValidated ids st))))
       = JsObj.get id (storedWrappers (session st)).
Proof.
  revert st. induction ids as [|k rest IH]; intros st; simpl; [auto|].
  destruct (verifyOne_frame st k) as [_ [_ [H3 H4]]].
  destruct (verifyOne st k) as [st1 [[]|e]]; simpl in H3, H4.
  - destruct (IH st1) as [I3 I4]. split; [congruence|].
    intros id Hnot. rewrite I4 by tauto. apply H4. intros ->. tauto.
  - cbn [fst]. split; [assumption|].
    intros id Hnot. apply H4. intros ->. tauto.
Qed.

(** A verification pass reads the stored files and never writes them, nor
    the unused list; it adds and removes no candidate; and a candidate
    whose id is not among those passed is left exactly as it was. *)
Theorem verifyValidated_frame (ids : list string) (st : State World) :
  inputFiles (session (fst (verifyValidated ids st)))
    = inputFiles (session st)
  /\ unusedSources (session (fst (verifyValidated ids st)))
     = unusedSources (session st)
  /\ JsObj.keys (storedWrappers (session (fst (verifyValidated ids st))))
     = JsObj.keys (storedWrappers (session st))
  /\ forall id, ~ In id ids ->
       JsObj.get id (storedWrappers (session (fst (verifyValidated ids st))))
       = JsObj.get id (storedWrappers (session st)).
Proof.
  revert st. induction ids as [|k rest IH]; intros st; simpl; [auto|].
  destruct (verifyOne_frame st k) as [H1 [H2 [H3 H4]]].
  destruct (verifyOne st k) as [st1 [[]|e]]; simpl in H1, H2, H3, H4.
  - destruct (IH st1) as [I1 [I2 [I3 I4]]].
    split; [congruence|]. split; [congruence|]. split; [congruence|].
    intros id Hnot. rewrite I4 by tauto. apply H4. intros ->. tauto.
  - cbn [fst]. split; [assumption|]. split; [assumption|].
    split; [assumption|]. intros id Hnot. apply H4. intros ->. tauto.
Qed.

(** A pass ends by an exception only when [findByAddress] throws: with a
    lookup that always returns, and ids that are all candidates of the
    session, whatever [fetchMissing], [inject] and [useAllSources] do, the
    pass returns. *)
Theorem verifyValidated_returns (ids : list string) (st : State World) :
  (forall w a c, exists found, findByAddress w a c = Ok found) ->
  (forall id, In id ids ->
     In id (JsObj.keys (storedWrappers (session st)))) ->
  snd (verifyValidated ids st) = Ok tt.
Proof.
  intros Hfind. revert st.
  induction ids as [|k rest IH]; intros st Hin; simpl; [reflexivity|].
  destruct (verifyOne_frame st k) as [_ [_ [Hkeys _]]].
  assert (Hone : snd (verifyOne st k) = Ok tt).
  { unfold verifyOne.
    assert (Hk : In k (JsObj.keys (storedWrappers (session st))))
      by (apply Hin; now left).
    apply get_in_keys in Hk.
    destruct (JsObj.get k (storedWrappers (session st))) as [cw0|];
      [|congruence].
    destruct (checkAndFetchMissing (contract cw0) (world st) (trace st))
      as [[w1 tr1] c1].
    destruct (isVerifiable (setContract cw0 c1)); simpl negb; cbv iota;
      [|reflexivity].
    destruct (Hfind w1 (address (setContract cw0 c1))
                (chainId (setContract cw0 c1))) as [found Hf].
    rewrite Hf.
    destruct (match found with
              | [] => injectWithRetry _ _ _ _
              | m :: _ => _
              end) as [[w3 tr3] m3]. reflexivity. }
  destruct (verifyOne st k) as [st1 [[]|e]]; [|discriminate Hone].
  simpl in Hkeys. apply IH. intros id Hid. rewrite Hkeys. apply Hin. now right.
Qed.

Lemma checkAndFetchMissing_events (c : CheckedContract) (w : World)
  (tr : list Event) :
  snd (fst (checkAndFetchMissing c w tr)) = tr
  \/ snd (fst (checkAndFetchMissing c w tr)) = tr ++ [EvFetchMissing c].
Proof.
  unfold checkAndFetchMissing. destruct (negb (isValid c false)); auto.
Qed.

(** With a gate that refuses a wrapper without an address, a pass over a
    session in which no candidate has an address calls neither
    [findByAddress] nor [inject] nor [useAllSources] (it may fetch missing
    sources), and leaves every candidate's target, status, message and
    timestamp as they were. *)
Theorem verifyValidated_without_target (ids : list string)
  (st : State World) :
  (forall cw, truthy (address cw) = false -> isVerifiable cw = false) ->
  (forall id cw, JsObj.get id (storedWrappers (session st)) = Some cw ->
                 truthy (address cw) = false) ->
  (exists new,
     trace (fst (verifyValidated ids st)) = trace st ++ new
     /\ forall e, In e new -> exists c, e = EvFetchMissing c)
  /\ forall id cw,
       JsObj.get id (storedWrappers (session st)) = Some cw ->
       exists cw',
         JsObj.get id (storedWrappers (session (fst (verifyValidated ids st))))
           = Some cw'
         /\ address cw' = address cw /\ chainId cw' = chainId cw
         /\ status cw' = status cw
         /\ statusMessage cw' = statusMessage cw
         /\ storageTimestamp cw' = storageTimestamp cw.
Proof.
  intros Hgate. revert st.
  induction ids as [|k rest IH]; intros st Hnone; simpl.
  - split; [exists []; rewrite app_nil_r; split; [reflexivity|contradiction]|].
    intros id cw H. exists cw. auto 10.
  - unfold verifyOne.
    destruct (JsObj.get k (storedWrappers (session st))) as [cwk|] eqn:Hk.
    2:{ simpl. split;
          [exists []; rewrite app_nil_r; split; [reflexivity|contradiction]|].
        intros id cw H. exists cw. auto 10. }
    pose proof (checkAndFetchMissing_events (contract cwk) (world st)
                  (trace st)) as Hev.
    destruct (checkAndFetchMissing (contract cwk) (world st) (trace st))
      as [[w1 tr1] c1]. simpl in Hev.
    rewrite (Hgate (setContract cwk c1) (Hnone k cwk Hk)).
    simpl negb. cbv iota.
    set (st1 := mkState w1 tr1 (putWrapper (session st) k (setContract cwk c1))).
    assert (Hnone1 : forall id cw,
              JsObj.get id (storedWrappers (session st1)) = Some cw ->
              truthy (address cw) = false).
    { intros id cw. unfold st1. cbn [session].
      destruct (String.eqb k id) eqn:E.
      - apply String.eqb_eq in E. subst id. rewrite get_putWrapper_eq.
        intros [= <-]. exact (Hnone k cwk Hk).
      - apply String.eqb_neq in E. rewrite get_putWrapper_neq by assumption.
        apply Hnone. }
    destruct (IH st1 Hnone1) as [[new [Htr Hnew]] Hkeep]. split.
    + destruct Hev as [Hev|Hev]; subst tr1.
      * exists new. split; assumption.
      * exists (EvFetchMissing (contract cwk) :: new). split.
        -- rewrite Htr. unfold st1. cbn [trace]. now rewrite <- app_assoc.
        -- intros e [<-|He]; eauto.
    + intros id cw Hget.
      assert (H1 : exists cw1,
                JsObj.get id (storedWrappers (session st1)) = Some cw1
                /\ address cw1 = address cw /\ chainId cw1 = chainId cw
                /\ status cw1 = status cw
                /\ statusMessage cw1 = statusMessage cw
                /\ storageTimestamp cw1 = storageTimestamp cw).
      { unfold st1. cbn [session]. destruct (String.eqb k id) eqn:E.
        - apply String.eqb_eq in E. subst id. rewrite get_putWrapper_eq.
          assert (cwk = cw) by congruence. subst cwk.
          eexists. split; [reflexivity|]. simpl. auto 10.
        - apply String.eqb_neq in E. rewrite get_putWrapper_neq by assumption.
          exists cw. auto 10. }
      destruct H1 as [cw1 [Hget1 [A1 [A2 [A3 [A4 A5]]]]]].
      destruct (Hkeep id cw1 Hget1) as [cw' [Hget' [B1 [B2 [B3 [B4 B5]]]]]].
      exists cw'. split; [assumption|]. repeat split; congruence.
Qed.

(** When a candidate passes the gate and has no stored match, an exception
    of [inject], of [useAllSources] after an [extra-file-input-bug], or of
    the second [inject], is not thrown on: the pass goes on, and the
    candidate's status is "error", its message the exception's, its
    timestamp undefined. An exception of [useAllSources] leaves one call
    of [inject] made; the first result is not recorded. *)
Theorem verifyOne_records_errors (st : State World) (id : string)
  (cw : ContractWrapper) (w1 : World) (tr1 : list Event)
  (c1 : CheckedContract) :
  JsObj.get id (storedWrappers (session st)) = Some cw ->
  checkAndFetchMissing (contract cw) (world st) (trace st) = (w1, tr1, c1) ->
  isVerifiable (setContract cw c1) = true ->
  findByAddress w1 (address cw) (chainId cw) = Ok [] ->
  (forall w2 e,
     inject w1 (mkInputData [address cw] (chainId cw) c1) = (w2, Throw e) ->
     snd (verifyOne st id) = Ok tt
     /\ recordedError (fst (verifyOne st id)) id e)
  /\ (forall w2 m1 files w3 e,
        inject w1 (mkInputData [address cw] (chainId cw) c1) = (w2, Ok m1) ->
        match_status m1 = Some "extra-file-input-bug" ->
        inputFiles (session st) = Some files ->
        useAllSources w2 c1 (map toPathBuffer (JsObj.values files))
          = (w3, Throw e) ->
        snd (verifyOne st id) = Ok tt
        /\ recordedError (fst (verifyOne st id)) id e
        /\ injectCalls (trace (fst (verifyOne st id))) = injectCalls tr1 + 1)
  /\ (forall w2 m1 files w3 cAll w4 e,
        inject w1 (mkInputData [address cw] (chainId cw) c1) = (w2, Ok m1) ->
        match_status m1 = Some "extra-file-input-bug" ->
        inputFiles (session st) = Some files ->
        useAllSources w2 c1 (map toPathBuffer (JsObj.values files))
          = (w3, Ok cAll) ->
        inject w3 (mkInputData [address cw] (chainId cw) cAll)
          = (w4, Throw e) ->
        snd (verifyOne st id) = Ok tt
        /\ recordedError (fst (verifyOne st id)) id e).
Proof.
  intros Hget Hfetch Hgate Hfound.
  assert (Hrec : forall (w : World) tr e,
            recordedError
              (mkState w tr
                 (putWrapper (putWrapper (session st) id (setContract cw c1))
                    id (recordMatch (setContract cw c1) (errorMatch e))))
              id e).
  { intros w tr e. unfold recordedError. eexists. cbn [session].
    split; [apply get_putWrapper_eq|]. simpl. auto. }
  split; [|split].
  - intros w2 e Hinj. unfold verifyOne.
    rewrite Hget, Hfetch, Hgate. simpl negb. cbv iota.
    cbn [address chainId setContract]. rewrite Hfound.
    unfold injectWithRetry. rewrite Hinj. cbn [fst snd].
    split; [reflexivity|apply Hrec].
  - intros w2 m1 files w3 e Hinj Hst Hfiles Huse. unfold verifyOne.
    rewrite Hget, Hfetch, Hgate. simpl negb. cbv iota.
    cbn [address chainId setContract]. rewrite Hfound.
    unfold injectWithRetry. rewrite Hinj.
    rewrite (proj2 (statusIs_true _ _) Hst).
    rewrite inputFiles_putWrapper, Hfiles. cbn [input_contract].
    rewrite Huse. cbn [fst snd].
    split; [reflexivity|]. split; [apply Hrec|].
    cbn [trace]. rewrite !injectCalls_app. unfold injectCalls. simpl. lia.
  - intros w2 m1 files w3 cAll w4 e Hinj Hst Hfiles Huse Hinj2.
    unfold verifyOne.
    rewrite Hget, Hfetch, Hgate. simpl negb. cbv iota.
    cbn [address chainId setContract]. rewrite Hfound.
    unfold injectWithRetry. rewrite Hinj.
    rewrite (proj2 (statusIs_true _ _) Hst).
    rewrite inputFiles_putWrapper, Hfiles.
    cbn [input_contract addresses chain].
    rewrite Huse, Hinj2. cbn [fst snd].
    split; [reflexivity|apply Hrec].
Qed.

End PassMore.

(** ** The session endpoints *)
Section EndpointsMore.
Context {U : Util} {World : Type}
        {VER : IVerificationService World}
        {VAL : IValidationService World}
        {NET : Remote World}.
Import JsObjFacts.

Lemma injectWithRetry_pass_events (w : World) (tr : list Event)
  (d : InputData) (files : option (JsObj.t PathContent)) :
  exists new,
    snd (fst (injectWithRetry w tr d files)) = tr ++ new
    /\ Forall (fun e => isPassEvent e = true) new.
Proof.
  unfold injectWithRetry.
  destruct (inject w d) as [w1 [m1|e1]];
    [|exists [EvInject d]; split; [reflexivity|repeat constructor]].
  destruct (statusIs (match_status m1) "extra-file-input-bug");
    [|exists [EvInject d]; split; [reflexivity|repeat constructor]].
  destruct files as [o|];
    [|exists [EvInject d]; split; [reflexivity|repeat constructor]].
  destruct (useAllSources w1 _ _) as [w2 [cAll|e2]].
  - eexists [EvInject d; EvUseAllSources _ _; EvInject _].
    split; [|repeat constructor].
    destruct (inject w2 _) as [w3 [m2|e3]]; simpl;
      [destruct (statusIs (match_status m2) "perfect"
                 || statusIs (match_status m2) "partial")|];
      simpl; now rewrite <- !app_assoc.
  - eexists [EvInject d; EvUseAllSources _ _].
    split; [simpl; now rewrite <- app_assoc|repeat constructor].
Qed.

Lemma verifyOne_pass_events (st : State World) (id : string) :
  exists new,
    trace (fst (verifyOne st id)) = trace st ++ new
    /\ Forall (fun e => isPassEvent e = true) new.
Proof.
  unfold verifyOne.
  destruct (JsObj.get id (storedWrappers (session st))) as [cw|];
    [|exists []; split; [now rewrite app_nil_r|constructor]].
  pose proof (checkAndFetchMissing_events (contract cw) (world st) (trace st))
    as Hev.
  destruct (checkAndFetchMissing (contract cw) (world st) (trace st))
    as [[w1 tr1] c1]. simpl in Hev.
  assert (H0 : exists new0, tr1 = trace st ++ new0
                            /\ Forall (fun e => isPassEvent e = true) new0).
  { destruct Hev as [->| ->].
    - exists []. split; [now rewrite app_nil_r|constructor].
    - eexists. split; [reflexivity|repeat constructor]. }
  destruct H0 as [new0 [-> Hall0]].
  destruct (isVerifiable (setContract cw c1)); simpl negb; cbv iota;
    [|exists new0; split; [reflexivity|assumption]].
  destruct (findByAddress w1 _ _) as [found|e].
  2:{ eexists (new0 ++ [_]). cbn [fst trace]. rewrite app_assoc.
      split; [reflexivity|]. apply Forall_app. split; [assumption|].
      repeat constructor. }
  destruct found as [|m rest].
  - destruct (injectWithRetry_pass_events w1
                ((trace st ++ new0)
                 ++ [EvFindByAddress (address (setContract cw c1))
                       (chainId (setContract cw c1))])
                (mkInputData [address (setContract cw c1)]
                   (chainId (setContract cw c1)) c1)
                (inputFiles (putWrapper (session st) id (setContract cw c1))))
      as [new1 [Htr1 Hall1]].
    destruct (injectWithRetry _ _ _ _) as [[w3 tr3] m3].
    simpl in Htr1. subst tr3. cbn [fst trace].
    eexists (new0 ++ [_] ++ new1). split; [now rewrite !app_assoc|].
    apply Forall_app. split; [assumption|].
    apply Forall_app. split; [repeat constructor|assumption].
  - eexists (new0 ++ [_]). cbn [fst trace]. rewrite app_assoc.
    split; [reflexivity|]. apply Forall_app. split; [assumption|].
    repeat constructor.
Qed.

Lemma verifyValidated_pass_events (ids : list string) (st : State World) :
  exists new,
    trace (fst (verifyValidated ids st)) = trace st ++ new
    /\ Forall (fun e => isPassEvent e = true) new.
Proof.
  revert st. induction ids as [|k rest IH]; intros st; simpl.
  - exists []. split; [now rewrite app_nil_r|constructor].
  - destruct (verifyOne_pass_events st k) as [new1 [Htr1 Hall1]].
    destruct (verifyOne st k) as [st1 [[]|e]]; simpl in Htr1.
    + destruct (IH st1) as [new2 [Htr2 Hall2]].
      exists (new1 ++ new2). rewrite Htr2, Htr1, app_assoc.
      split; [reflexivity|]. apply Forall_app. auto.
    + exists new1. auto.
Qed.

Lemma fold_saveOne_values (pcs : list PathContent)
  (acc : JsObj.t PathContent * N) :
  exists added,
    JsObj.values (fst (fold_left saveOne pcs acc))
    = JsObj.values (fst acc) ++ added
    /\ incl added pcs
    /\ snd (fold_left saveOne pcs acc)
       = (snd acc + N.of_nat (length added))%N.
Proof.
  revert acc. induction pcs as [|p r IH]; intros acc; simpl.
  - exists []. rewrite app_nil_r. simpl. split; [reflexivity|].
    split; [apply incl_refl|lia].
  - destruct (IH (saveOne acc p)) as [added [H [Hincl Hcount]]].
    rewrite H, Hcount. unfold saveOne.
    destruct (JsObj.has (generateId (content p)) (fst acc)) eqn:E.
    + exists added. split; [reflexivity|].
      split; [now apply incl_tl|reflexivity].
    + cbn [fst snd]. rewrite (values_set_absent _ _ _ E).
      exists (p :: added). split; [now rewrite <- app_assoc|].
      split; [apply incl_cons; [now left|now apply incl_tl]|].
      cbn [length]. lia.
Qed.

(** An upload that stores at least one new file runs the validation
    service once, before any call of a verification pass, and hands it
    every file of the session: those held before, in their order, then the
    new ones. *)
Theorem addInputFilesEndpoint_validates_whole_session
  (files : list PathBuffer) (st : State World) (s1 : MySession) (n : N) :
  saveFiles (map toPathContent files) (session st) = (s1, Ok n) ->
  n <> 0%N ->
  exists added rest,
    sessionPathBuffers s1
      = sessionPathBuffers (session st) ++ map toPathBuffer added
    /\ incl added (map toPathContent files)
    /\ length added = N.to_nat n
    /\ trace (fst (addInputFilesEndpoint files st))
       = trace st ++ EvCheckFiles (sessionPathBuffers s1) :: rest
    /\ Forall (fun e => isPassEvent e = true) rest.
Proof.
  intros Hsave Hn.
  destruct (N.lt_ge_cases MAX_SESSION_SIZE
              (sessionSize (session st)
               + batchSize (map toPathContent files))) as [Hlt|Hge].
  { rewrite (saveFiles_over _ _ Hlt) in Hsave. discriminate. }
  pose proof Hsave as Hsave'.
  rewrite (saveFiles_within _ _ Hge) in Hsave'. injection Hsave' as Hs Hcnt.
  destruct (fold_saveOne_values (map toPathContent files)
              (storedFiles (session st), 0%N))
    as [added [Hadded [Hincl Hlen]]].
  unfold addInputFilesEndpoint. rewrite Hsave.
  apply N.eqb_neq in Hn. rewrite Hn.
  destruct (verifyValidated_pass_events
              (JsObj.keys (storedWrappers
                 (session (validateContracts (setSession st s1)))))
              (validateContracts (setSession st s1)))
    as [rest [Htr Hall]].
  exists added, rest.
  split; [|split; [exact Hincl|split; [|split; [|exact Hall]]]].
  - unfold sessionPathBuffers. rewrite <- map_app. f_equal.
    rewrite <- Hs. exact Hadded.
  - rewrite Hlen in Hcnt. cbn [snd] in Hcnt. lia.
  - rewrite Htr. unfold validateContracts. cbn [session setSession].
    destruct (checkFiles _ _) as [w [[cs un]|e]]; cbn [trace];
      now rewrite <- app_assoc.
Qed.

(** The loop of the verify-validated endpoint keeps the keys of the map,
    marks only ids of the request as verifiable, and leaves a candidate the
    request does not name as it was. *)
Lemma receiveContracts_frame (rcs : list SendableContract)
  (acc : ContractWrapperMap * Verifiable) (tr : list Event) :
  JsObj.keys (fst (fst (fst (receiveContracts rcs acc tr))))
  = JsObj.keys (fst acc)
  /\ incl (JsObj.keys (snd (fst (fst (receiveContracts rcs acc tr)))))
          (map verificationId rcs ++ JsObj.keys (snd acc))
  /\ forall id, ~ In id (map verificationId rcs) ->
       JsObj.get id (fst (fst (fst (receiveContracts rcs acc tr))))
       = JsObj.get id (fst acc).
Proof.
  revert acc.
  induction rcs as [|rc rest IH]; intros acc; cbn [receiveContracts map].
  - split; [reflexivity|]. split; [apply incl_refl|reflexivity].
  - destruct (JsObj.get (verificationId rc) (fst acc)) as [cwk|] eqn:G.
    + destruct (receiveOne_own acc rc cwk G) as [v [Hone Hv]]. rewrite Hone.
      destruct (IH (JsObj.set (verificationId rc)
                      (setTarget cwk (sc_address rc) (sc_chainId rc))
                      (fst acc), v)) as [K [I O]].
      cbn [fst snd] in K, I, O. split.
      { rewrite K, keys_set. unfold JsObj.has. now rewrite G. }
      split.
      { intros x Hx. apply I in Hx. apply in_app_or in Hx.
        destruct Hx as [Hx|Hx].
        - right. apply in_or_app. now left.
        - apply Hv in Hx. destruct Hx as [<-|Hx]; [now left|].
          right. apply in_or_app. now right. }
      intros id Hnot. rewrite O by (intros Hin; apply Hnot; now right).
      apply get_set_neq. intros Heq. apply Hnot. now left.
    + rewrite (receiveOne_absent acc rc G).
      destruct (readsInherited (fst acc) (verificationId rc)).
      * cbn [fst snd]. split; [reflexivity|]. split; [|reflexivity].
        intros x Hx. right. apply in_or_app. now right.
      * destruct (IH acc) as [K [I O]]. split; [exact K|]. split.
        { intros x Hx. right. now apply I. }
        intros id Hnot. apply O. intros Hin. apply Hnot. now right.
Qed.

(** With no entry that reads an inherited object, the loop gets to its
    end, and nothing is written outside the session. *)
Lemma receiveContracts_returns (rcs : list SendableContract)
  (acc : ContractWrapperMap * Verifiable) (tr : list Event) :
  ownOrAbsent (fst acc) rcs ->
  snd (receiveContracts rcs acc tr) = Ok tt
  /\ snd (fst (receiveContracts rcs acc tr)) = tr.
Proof.
  revert acc.
  induction rcs as [|rc rest IH]; intros acc H; cbn [receiveContracts];
    [auto|].
  destruct (JsObj.get (verificationId rc) (fst acc)) as [cwk|] eqn:G.
  - destruct (receiveOne_own acc rc cwk G) as [v [Hone _]]. rewrite Hone.
    apply IH. intros x Hx. cbn [fst]. unfold readsInherited.
    rewrite (has_set_present _ _ _ cwk _ G). apply H. now right.
  - rewrite (receiveOne_absent acc rc G), (H rc) by now left.
    apply IH. intros x Hx. apply H. now right.
Qed.


(** For a request none of whose ids reads an inherited object, the
    verify-validated endpoint adds and removes no candidate, leaves a
    candidate the request does not name exactly as it was, status
    included, and beyond the session does nothing but the calls of a
    verification pass. *)
Theorem verifyValidatedEndpoint_frame (rcs : list SendableContract)
  (st : State World) :
  ownOrAbsent (storedWrappers (session st)) rcs ->
  JsObj.keys
    (storedWrappers (session (fst (verifyValidatedEndpoint rcs st))))
  = JsObj.keys (storedWrappers (session st))
  /\ (forall id,
        ~ In id (map verificationId rcs) ->
        JsObj.get id
          (storedWrappers (session (fst (verifyValidatedEndpoint rcs st))))
        = JsObj.get id (storedWrappers (session st)))
  /\ exists new,
       trace (fst (verifyValidatedEndpoint rcs st)) = trace st ++ new
       /\ Forall (fun e => isPassEvent e = true) new.
Proof.
  intros Hclean. unfold verifyValidatedEndpoint.
  assert (Hnone : exists new : list Event,
             trace st = trace st ++ new
             /\ Forall (fun e => isPassEvent e = true) new)
    by (exists []; split; [now rewrite app_nil_r|constructor]).
  destruct (contractWrappers (session st)) as [ws|] eqn:W; [|auto].
  destruct (JsObj.isEmpty ws); [auto|].
  assert (Hws : storedWrappers (session st) = ws)
    by (unfold storedWrappers; now rewrite W).
  rewrite Hws in *.
  destruct (receiveContracts_frame rcs (ws, []) (trace st))
    as [Hkeys [Hsub Hother]].
  destruct (receiveContracts_returns rcs (ws, []) (trace st) Hclean)
    as [Hok Htr].
  destruct (receiveContracts rcs (ws, []) (trace st)) as [[r tr] res].
  cbn [fst snd] in Hkeys, Hsub, Hother, Hok, Htr. subst res tr.
  set (st1 := mkState (world st) (trace st)
                (setContractWrappers (session st) (fst r))).
  destruct (pass_frame (JsObj.keys (snd r)) st1) as [Fk Fo].
  destruct (verifyValidated_pass_events (JsObj.keys (snd r)) st1)
    as [new [Hnew Hall]].
  split; [rewrite Fk; exact Hkeys|]. split.
  - intros id Hnot. rewrite Fo; [now apply Hother|].
    intros Hin. apply Hsub in Hin. rewrite app_nil_r in Hin. tauto.
  - exists new. auto.
Qed.


End EndpointsMore.

(** ** The Etherscan flow into a session *)
Section EtherscanMore.
Context {U : Util} {World : Type}
        {VER : IVerificationService World}
        {VAL : IValidationService World}
        {NET : Remote World}.
Import JsObjFacts.

(** When everything Etherscan returns is already stored and the size check
    passes, the flow stops with a [BadRequestError] after the Etherscan
    request: no validation, no lookup, no [inject], and the session is the
    one it was. *)
Theorem etherscan_session_nothing_new (chain addr : string)
  (st : State World) (w1 : World) (sources : list (string * string))
  (metadata : string) :
  processRequestFromEtherscan (world st) chain addr
    = (w1, Ok (sources, metadata)) ->
  (forall pc, In pc (etherscanPathContents sources metadata) ->
     JsObj.has (generateId (content pc)) (storedFiles (session st)) = true) ->
  (sessionSize (session st)
   + batchSize (etherscanPathContents sources metadata)
   <= MAX_SESSION_SIZE)%N ->
  verifyFromEtherscanWithSession chain addr st
  = (mkState w1 (trace st ++ [EvEtherscan chain addr]) (session st),
     Throw (mkError BadRequestError "The contract didn't add any new file")).
Proof.
  intros Hreq Hall Hcap. unfold verifyFromEtherscanWithSession.
  rewrite Hreq. fold (etherscanPathContents sources metadata).
  rewrite (saveFiles_within _ _ Hcap), (saveOne_all_present _ _ _ Hall).
  cbn [fst snd]. simpl N.eqb. cbv iota.
  rewrite setInputFiles_stored, initInputFiles_defined; [reflexivity|].
  assert (Hin : In (mkPathContent "metadata.json" (stringToBase64 metadata))
                   (etherscanPathContents sources metadata))
    by (apply in_or_app; right; now left).
  specialize (Hall _ Hin). unfold storedFiles, JsObj.has in Hall.
  destruct (inputFiles (session st)); [discriminate|discriminate Hall].
Qed.

Lemma targetOne_bound_kept (a c : string) (ids : list string)
  (acc : ContractWrapperMap * Verifiable) (id : string)
  (cw : ContractWrapper) :
  targetIn (fst acc) id (fst (boundTo a c cw)) (snd (boundTo a c cw)) ->
  targetIn (fst (fold_left (targetOne a c) ids acc)) id
    (fst (boundTo a c cw)) (snd (boundTo a c cw)).
Proof.
  revert acc. induction ids as [|k rest IH]; intros acc H; simpl;
    [assumption|].
  apply IH. destruct H as [cw' [Hget [Ha Hc]]]. unfold targetOne.
  destruct (JsObj.get k (fst acc)) as [cwk|] eqn:Hk; [|exists cw'; auto].
  cbn [fst]. destruct (String.eqb k id) eqn:E.
  - apply String.eqb_eq in E. subst k.
    assert (cwk = cw') by congruence. subst cwk.
    eexists. split; [apply get_set_eq|].
    destruct (truthy (address cw')) eqn:T; simpl negb; cbv iota;
      [auto|].
    unfold boundTo in *. destruct (truthy (address cw)) eqn:Tc.
    + simpl in Ha. rewrite Ha, Tc in T. discriminate.
    + simpl in *. auto.
  - apply String.eqb_neq in E. exists cw'.
    rewrite get_set_neq by assumption. auto.
Qed.

Lemma targetOne_binds (a c : string) (ids : list string)
  (acc : ContractWrapperMap * Verifiable) (id : string)
  (cw : ContractWrapper) :
  JsObj.get id (fst acc) = Some cw ->
  In id ids ->
  targetIn (fst (fold_left (targetOne a c) ids acc)) id
    (fst (boundTo a c cw)) (snd (boundTo a c cw)).
Proof.
  revert acc. induction ids as [|k rest IH]; intros acc Hget Hin; simpl;
    [contradiction|].
  destruct (String.eqb k id) eqn:E.
  - apply String.eqb_eq in E. subst k. apply targetOne_bound_kept.
    unfold targetOne. rewrite Hget. cbn [fst].
    eexists. split; [apply get_set_eq|].
    unfold boundTo. destruct (truthy (address cw)); simpl; auto.
  - apply String.eqb_neq in E. destruct Hin as [Hk|Hin]; [congruence|].
    apply IH; [|assumption]. unfold targetOne.
    destruct (JsObj.get k (fst acc)); [|assumption].
    cbn [fst]. now rewrite get_set_neq.
Qed.

(** Once the Etherscan files are saved and assembled, every candidate of
    the session whose address is not set, whether it came from these files
    or from an earlier upload, is given the address and chain of the
    request; a candidate whose address is set keeps its target. *)
Theorem etherscan_session_binds_untargeted (chain addr : string)
  (st : State World) (w1 : World) (sources : list (string * string))
  (metadata : string) (s1 : MySession) (n : N) (id : string)
  (cw : ContractWrapper) :
  processRequestFromEtherscan (world st) chain addr
    = (w1, Ok (sources, metadata)) ->
  saveFiles (etherscanPathContents sources metadata) (session st)
    = (s1, Ok n) ->
  n <> 0%N ->
  JsObj.get id
    (storedWrappers
       (session (validateContracts
                   (mkState w1 (trace st ++ [EvEtherscan chain addr]) s1))))
    = Some cw ->
  targetIn
    (storedWrappers
       (session (fst (verifyFromEtherscanWithSession chain addr st))))
    id (fst (boundTo addr chain cw)) (snd (boundTo addr chain cw)).
Proof.
  intros Hreq Hsave Hn Hget. unfold verifyFromEtherscanWithSession.
  rewrite Hreq. fold (etherscanPathContents sources metadata).
  rewrite Hsave. apply N.eqb_neq in Hn. rewrite Hn.
  set (st2 := validateContracts
                (mkState w1 (trace st ++ [EvEtherscan chain addr]) s1)) in *.
  unfold storedWrappers in Hget.
  destruct (contractWrappers (session st2)) as [ws|] eqn:W;
    [|discriminate Hget].
  assert (Hin : In id (JsObj.keys ws))
    by (apply get_in_keys; congruence).
  destruct (targetOne_binds addr chain (JsObj.keys ws) (ws, []) id cw
              Hget Hin) as [cw3 [Hget3 [Ha3 Hc3]]].
  set (r := fold_left (targetOne addr chain) (JsObj.keys ws) (ws, [])) in *.
  destruct (verifyValidated_target (JsObj.keys (snd r))
              (setSession st2 (setContractWrappers (session st2) (fst r)))
              id cw3 Hget3) as [cw4 [Hget4 [Ha4 Hc4]]].
  exists cw4. split; [exact Hget4|]. split; congruence.
Qed.

End EtherscanMore.

(** ** Request validators *)
Section ValidatorsMore.
Context {V : Validators}.

Lemma splitComma_cons (s : string) :
  exists h t, splitComma s = h :: t.
Proof.
  destruct s as [|c r]; simpl; [eauto|].
  destruct (Ascii.eqb c ","); [eauto|].
  destruct (splitComma r); eauto.
Qed.

(** Joining the pieces with commas gives the string back. *)
Lemma concat_splitComma (s : string) :
  String.concat "," (splitComma s) = s.
Proof.
  induction s as [|c r IH]; [reflexivity|]. simpl splitComma.
  destruct (Ascii.eqb c ",") eqn:E.
  - apply Ascii.eqb_eq in E. subst c.
    destruct (splitComma_cons r) as [h [t Hr]]. rewrite Hr in *.
    simpl. simpl in IH. now rewrite IH.
  - destruct (splitComma_cons r) as [h [t Hr]]. rewrite Hr in *.
    destruct t as [|h' t']; simpl in *; now rewrite IH.
Qed.

Lemma fold_checkAddress (l invalid out : list string) :
  fold_left checkAddress l (invalid, out)
  = (invalid ++ filter (fun a => negb (isValidAddress a)) l,
     out ++ map (fun a => if isValidAddress a then toChecksumAddress a else a)
                l).
Proof.
  revert invalid out. induction l as [|a r IH]; intros invalid out; simpl.
  - now rewrite !app_nil_r.
  - unfold checkAddress at 2. cbn [fst snd].
    destruct (isValidAddress a); simpl; rewrite IH, <- !app_assoc;
      reflexivity.
Qed.

Lemma map_checksum_valid (l : list string) :
  filter (fun a => negb (isValidAddress a)) l = [] ->
  map (fun a => if isValidAddress a then toChecksumAddress a else a) l
  = map toChecksumAddress l.
Proof.
  induction l as [|a r IH]; simpl; [reflexivity|].
  destruct (isValidAddress a); simpl; [|discriminate].
  intros H. now rewrite IH.
Qed.

(** [validateAddresses] returns the checksummed form of every
    comma-separated piece of its argument, in order, when every piece is a
    valid address; otherwise it throws a plain [Error] whose message lists
    exactly the invalid pieces, in order. The pieces joined by commas are
    the argument, so there is always at least one. *)
Theorem validateAddresses_pieces (addresses : string) :
  validateAddresses addresses
  = match filter (fun a => negb (isValidAddress a)) (splitComma addresses) with
    | [] => Done (map toChecksumAddress (splitComma addresses))
    | invalid =>
        Raised (mkThrown PlainError
                  ("Invalid addresses: " ++ String.concat ", " invalid)%string)
    end
  /\ String.concat "," (splitComma addresses) = addresses
  /\ splitComma addresses <> [].
Proof.
  split; [|split; [apply concat_splitComma|]].
  - unfold validateAddresses. rewrite fold_checkAddress. cbn [fst snd app].
    destruct (filter _ (splitComma addresses)) eqn:F; [|reflexivity].
    now rewrite (map_checksum_valid _ F).
  - destruct (splitComma_cons addresses) as [h [t H]]. now rewrite H.
Qed.

Lemma fold_checkChain (l valid invalid : list string) :
  fold_left checkChain l (valid, invalid)
  = (valid ++ flat_map checkedChain l, invalid ++ filter rejectedChain l).
Proof.
  revert valid invalid. induction l as [|c r IH]; intros valid invalid; simpl.
  - now rewrite !app_nil_r.
  - unfold checkChain at 2, checkedChain at 1, rejectedChain at 1.
    cbn [fst snd].
    destruct (checkChainId c); simpl; rewrite IH, <- !app_assoc; reflexivity.
Qed.

(** [validateChainIds] returns what [checkChainId] returns for every
    comma-separated piece, in order, when it accepts them all; otherwise it
    throws a plain [Error] whose message lists exactly the pieces it
    rejected, in order. *)
Theorem validateChainIds_pieces (chainIds : string) :
  validateChainIds chainIds
  = match filter rejectedChain (splitComma chainIds) with
    | [] => Done (flat_map checkedChain (splitComma chainIds))
    | invalid =>
        Raised (mkThrown PlainError
                  ("Invalid chainIds: " ++ String.concat ", " invalid)%string)
    end
  /\ length (flat_map checkedChain (splitComma chainIds))
     + length (filter rejectedChain (splitComma chainIds))
     = length (splitComma chainIds).
Proof.
  split.
  - unfold validateChainIds. rewrite fold_checkChain. reflexivity.
  - induction (splitComma chainIds) as [|c r IH]; simpl; [reflexivity|].
    unfold checkedChain at 1, rejectedChain at 1.
    destruct (checkChainId c); simpl; lia.
Qed.

End ValidatorsMore.

(** ** Sources of a JSON input *)
Section MappedSources.
Import JsObjFacts.

Lemma set_absent {V} (k : string) (v : V) (o : JsObj.t V) :
  JsObj.get k o = None -> JsObj.set k v o = o ++ [(k, v)].
Proof.
  induction o as [|[k' v'] r IH]; simpl; [reflexivity|].
  destruct (String.eqb k k'); [discriminate|].
  intros H. now rewrite IH.
Qed.

Lemma get_app_last {V} (k : string) (v : V) (o : JsObj.t V) :
  JsObj.get k o = None -> JsObj.get k (o ++ [(k, v)]) = Some v.
Proof.
  induction o as [|[k' v'] r IH]; simpl.
  - now rewrite String.eqb_refl.
  - destruct (String.eqb k k'); [discriminate|assumption].
Qed.

Lemma get_app_other {V} (k k' : string) (v : V) (o : JsObj.t V) :
  k <> k' -> JsObj.get k (o ++ [(k', v)]) = JsObj.get k o.
Proof.
  intros Hne. induction o as [|[k0 v0] r IH]; simpl.
  - destruct (String.eqb k k') eqn:E; [|reflexivity].
    apply String.eqb_eq in E. congruence.
  - now rewrite IH.
Qed.

Lemma set_app_last {V} (k : string) (v v' : V) (o : JsObj.t V) :
  JsObj.get k o = None ->
  JsObj.set k v' (o ++ [(k, v)]) = o ++ [(k, v')].
Proof.
  induction o as [|[k' v0] r IH]; simpl.
  - now rewrite String.eqb_refl.
  - destruct (String.eqb k k'); [discriminate|].
    intros H. now rewrite IH.
Qed.

Lemma values_app {V} (a b : JsObj.t V) :
  JsObj.values (a ++ b) = JsObj.values a ++ JsObj.values b.
Proof. unfold JsObj.values. apply map_app. Qed.

Lemma get_not_in_keys {V} (k : string) (o : JsObj.t V) :
  ~ In k (JsObj.keys o) -> JsObj.get k o = None.
Proof.
  intros H. destruct (JsObj.get k o) eqn:G; [|reflexivity].
  exfalso. apply H. apply get_in_keys. congruence.
Qed.

Lemma keys_flat_map_mappedEntry (l : JsObj.t JsonSource) :
  incl (JsObj.keys (flat_map mappedEntry l)) (JsObj.keys l).
Proof.
  induction l as [|kv r IH]; simpl; [apply incl_refl|].
  unfold JsObj.keys in *. rewrite map_app. unfold mappedEntry at 1.
  destruct (truthy (source_content (snd kv))); simpl.
  - intros x [<-|Hx]; [now left|right; now apply IH].
  - apply incl_tl. exact IH.
Qed.

(** [getMappedSourcesFromJsonInput] keeps, in order, exactly the sources
    that have a non-empty content, each under its name with that content;
    a source with no content or an empty one is left out. *)
Theorem getMappedSourcesFromJsonInput_keeps_contents
  (sources : JsObj.t JsonSource) :
  NoDup (JsObj.keys sources) ->
  getMappedSourcesFromJsonInput sources = flat_map mappedEntry sources.
Proof.
  unfold getMappedSourcesFromJsonInput.
  induction sources as [|kv l IH] using rev_ind; intros Hnd; [reflexivity|].
  rewrite fold_left_app, flat_map_app. simpl.
  unfold JsObj.keys in Hnd. rewrite map_app in Hnd.
  apply NoDup_remove in Hnd. rewrite app_nil_r in Hnd.
  destruct Hnd as [Hnd Hnotin]. rewrite (IH Hnd), app_nil_r.
  unfold mappedEntry at 4.
  destruct (truthy (source_content (snd kv))); [|now rewrite app_nil_r].
  apply set_absent. apply get_not_in_keys.
  intros Hin. apply Hnotin. apply (keys_flat_map_mappedEntry l). exact Hin.
Qed.

End MappedSources.

(** ** Lookups by address, entry by entry *)
Section LookupsMore.
Context {World : Type} {VER : IVerificationService World}.
Import JsObjFacts.

Lemma perfectOne_step (w : World) (a c : string)
  (map : JsObj.t PerfectEntry) (l : list string) :
  JsObj.get a map = None ->
  perfectOne w a (perfectSoFar map a l) c
  = perfectSoFar map a (l ++ perfectChains w [c] a).
Proof.
  intros Hnone. unfold perfectOne, perfectTry, perfectChains. simpl filter.
  destruct (findByAddress w (Some a) (Some c)) as [[|m rest]|e];
    try (now rewrite app_nil_r).
  unfold JsObj.has. destruct l as [|x l']; simpl perfectSoFar.
  - rewrite Hnone. simpl negb. cbv iota.
    rewrite (set_absent _ _ _ Hnone), (get_app_last _ _ _ Hnone).
    cbn [perfect_chainIds perfect_address perfect_status].
    now rewrite (set_app_last _ _ _ _ Hnone).
  - rewrite (get_app_last _ _ _ Hnone). simpl negb. cbv iota.
    rewrite (get_app_last _ _ _ Hnone).
    cbn [perfect_chainIds perfect_address perfect_status].
    rewrite (set_app_last _ _ _ _ Hnone). reflexivity.
Qed.

Lemma perfectChains_cons (w : World) (c : string) (cs : list string)
  (a : string) :
  perfectChains w (c :: cs) a = perfectChains w [c] a ++ perfectChains w cs a.
Proof.
  unfold perfectChains. simpl.
  destruct (findByAddress w (Some a) (Some c)) as [[|m rest]|e]; reflexivity.
Qed.

Lemma fold_perfectOne (w : World) (a : string) (cs : list string)
  (map : JsObj.t PerfectEntry) (l : list string) :
  JsObj.get a map = None ->
  fold_left (perfectOne w a) cs (perfectSoFar map a l)
  = perfectSoFar map a (l ++ perfectChains w cs a).
Proof.
  intros Hnone. revert l. induction cs as [|c r IH]; intros l; simpl.
  - unfold perfectChains. simpl. now rewrite app_nil_r.
  - rewrite (perfectOne_step _ _ _ _ _ Hnone), IH, <- app_assoc.
    now rewrite <- perfectChains_cons.
Qed.

Lemma perfectAddress_appends (w : World) (cs : list string)
  (map : JsObj.t PerfectEntry) (a : string) :
  JsObj.get a map = None ->
  perfectAddress w cs map a = map ++ [(a, perfectEntryFor w cs a)].
Proof.
  intros Hnone. unfold perfectAddress.
  pose proof (fold_perfectOne w a cs map [] Hnone) as H.
  change (perfectSoFar map a []) with map in H. simpl app in H. rewrite H.
  unfold perfectEntryFor, JsObj.has.
  destruct (perfectChains w cs a) as [|x l]; simpl perfectSoFar.
  - rewrite Hnone. simpl. now apply set_absent.
  - now rewrite (get_app_last _ _ _ Hnone).
Qed.

Lemma fold_perfectAddress (w : World) (cs addresses : list string)
  (map : JsObj.t PerfectEntry) :
  NoDup addresses ->
  (forall a, In a addresses -> JsObj.get a map = None) ->
  fold_left (perfectAddress w cs) addresses map
  = map ++ List.map (fun a => (a, perfectEntryFor w cs a)) addresses.
Proof.
  revert map. induction addresses as [|a r IH]; intros map Hnd Hnone; simpl.
  - now rewrite app_nil_r.
  - inversion Hnd as [|? ? Hnotin Hnd']; subst.
    rewrite (perfectAddress_appends _ _ _ _ (Hnone a (or_introl eq_refl))).
    rewrite IH; [now rewrite <- app_assoc|assumption|].
    intros b Hb. rewrite get_app_other; [apply Hnone; now right|].
    intros ->. contradiction.
Qed.

(** For distinct addresses, [checkByAddresses] answers with one entry per
    address, in the order of the request: status "perfect" with the
    requested chains, in order, on which [findByAddress] returned a match,
    or status "false" and no chain list when there is none; a lookup that
    throws counts as no match. *)
Theorem checkByAddresses_entries (w : World) (req : CheckRequest) :
  validationErrors req = [] ->
  NoDup (req_addresses req) ->
  checkByAddresses w req
  = Ok (map (perfectEntryFor w (req_chainIds req)) (req_addresses req)).
Proof.
  intros Hvalid Hnd. unfold checkByAddresses. rewrite Hvalid. simpl.
  rewrite fold_perfectAddress; [|assumption|reflexivity].
  simpl. unfold JsObj.values. now rewrite map_map.
Qed.

Lemma lookupOne_step (w : World) (a c : string) (map : JsObj.t CheckEntry)
  (l : list (string * option string)) :
  JsObj.get a map = None ->
  lookupOne w a (matchedSoFar map a l) c
  = matchedSoFar map a (l ++ matchedChains w [c] a).
Proof.
  intros Hnone. unfold lookupOne, lookupTry, matchedChains. simpl flat_map.
  destruct (findAllByAddress w a c) as [[|m rest]|e];
    try (now rewrite !app_nil_r).
  rewrite app_nil_r.
  unfold JsObj.has. destruct l as [|x l']; simpl matchedSoFar.
  - rewrite Hnone. simpl negb. cbv iota.
    rewrite (set_absent _ _ _ Hnone), (get_app_last _ _ _ Hnone).
    cbn [entry_chainIds entry_address entry_status].
    now rewrite (set_app_last _ _ _ _ Hnone).
  - rewrite (get_app_last _ _ _ Hnone). simpl negb. cbv iota.
    rewrite (get_app_last _ _ _ Hnone).
    cbn [entry_chainIds entry_address entry_status].
    rewrite (set_app_last _ _ _ _ Hnone). reflexivity.
Qed.

Lemma matchedChains_cons (w : World) (c : string) (cs : list string)
  (a : string) :
  matchedChains w (c :: cs) a = matchedChains w [c] a ++ matchedChains w cs a.
Proof. unfold matchedChains. simpl. now rewrite app_nil_r. Qed.

Lemma fold_lookupOne (w : World) (a : string) (cs : list string)
  (map : JsObj.t CheckEntry) (l : list (string * option string)) :
  JsObj.get a map = None ->
  fold_left (lookupOne w a) cs (matchedSoFar map a l)
  = matchedSoFar map a (l ++ matchedChains w cs a).
Proof.
  intros Hnone. revert l. induction cs as [|c r IH]; intros l; simpl.
  - unfold matchedChains. simpl. now rewrite app_nil_r.
  - rewrite (lookupOne_step _ _ _ _ _ Hnone), IH, <- app_assoc.
    now rewrite <- matchedChains_cons.
Qed.

Lemma lookupAddress_appends (w : World) (cs : list string)
  (map : JsObj.t CheckEntry) (a : string) :
  JsObj.get a map = None ->
  lookupAddress w cs map a = map ++ [(a, checkEntryFor w cs a)].
Proof.
  intros Hnone. unfold lookupAddress.
  pose proof (fold_lookupOne w a cs map [] Hnone) as H.
  change (matchedSoFar map a []) with map in H. simpl app in H. rewrite H.
  unfold checkEntryFor, JsObj.has.
  destruct (matchedChains w cs a) as [|x l]; simpl matchedSoFar.
  - rewrite Hnone. simpl. now apply set_absent.
  - now rewrite (get_app_last _ _ _ Hnone).
Qed.

Lemma fold_lookupAddress (w : World) (cs addresses : list string)
  (map : JsObj.t CheckEntry) :
  NoDup addresses ->
  (forall a, In a addresses -> JsObj.get a map = None) ->
  fold_left (lookupAddress w cs) addresses map
  = map ++ List.map (fun a => (a, checkEntryFor w cs a)) addresses.
Proof.
  revert map. induction addresses as [|a r IH]; intros map Hnd Hnone; simpl.
  - now rewrite app_nil_r.
  - inversion Hnd as [|? ? Hnotin Hnd']; subst.
    rewrite (lookupAddress_appends _ _ _ _ (Hnone a (or_introl eq_refl))).
    rewrite IH; [now rewrite <- app_assoc|assumption|].
    intros b Hb. rewrite get_app_other; [apply Hnone; now right|].
    intros ->. contradiction.
Qed.

(** For distinct addresses, [checkAllByAddresses] answers with one entry
    per address, in the order of the request: the requested chains, in
    order, on which [findAllByAddress] returned a match, each with the
    status of the first match returned, and no status of its own; or status
    "false" when there is none. A lookup that throws counts as no match. *)
Theorem checkAllByAddresses_entries (w : World) (req : CheckRequest) :
  validationErrors req = [] ->
  NoDup (req_addresses req) ->
  checkAllByAddresses w req
  = Ok (map (checkEntryFor w (req_chainIds req)) (req_addresses req)).
Proof.
  intros Hvalid Hnd. unfold checkAllByAddresses. rewrite Hvalid. simpl.
  rewrite fold_lookupAddress; [|assumption|reflexivity].
  simpl. unfold JsObj.values. now rewrite map_map.
Qed.

End LookupsMore.

(** ** The one-shot Etherscan endpoint *)
Section OneShotMore.
Context {U : Util} {K : Core} {World : Type}
        {VER : IVerificationService World}
        {VAL : IValidationService World}
        {NET : Remote World}.

(** [verifyFromEtherscan] leaves the session alone and calls [inject] at
    most once, after the Etherscan request and with nothing in between or
    after: whatever the match it gets, an [extra-file-input-bug] included,
    that one match is the result it sends; if the request or [inject]
    throws, so does the endpoint. *)
Theorem verifyFromEtherscan_single_attempt (chain addr : string)
  (st : State World) :
  session (fst (verifyFromEtherscan chain addr st)) = session st
  /\ (exists new,
        trace (fst (verifyFromEtherscan chain addr st))
          = trace st ++ EvEtherscan chain addr :: new
        /\ injectCalls new = length new
        /\ length new <= 1)
  /\ (forall result,
        snd (verifyFromEtherscan chain addr st) = Ok result ->
        exists w1 sources metadata w2 m,
          processRequestFromEtherscan (world st) chain addr
            = (w1, Ok (sources, metadata))
          /\ inject w1
               (mkInputData [Some addr] (Some chain)
                  (newCheckedContract metadata
                     (getMappedSourcesFromJsonInput
                        (map (fun pc =>
                                (fst pc, mkJsonSource (Some (snd pc))))
                             sources))))
             = (w2, Ok m)
          /\ result = [m]
          /\ world (fst (verifyFromEtherscan chain addr st)) = w2).
Proof.
  unfold verifyFromEtherscan.
  destruct (processRequestFromEtherscan (world st) chain addr)
    as [w1 [[sources metadata]|e]].
  - destruct (inject w1 _) as [w2 [m|e]] eqn:Hinj; cbn [fst snd session trace].
    + split; [reflexivity|]. split.
      * eexists [_]. rewrite <- app_assoc. split; [reflexivity|].
        split; [reflexivity|simpl; lia].
      * intros result [= <-]. exists w1, sources, metadata, w2, m. auto.
    + split; [reflexivity|]. split.
      * eexists [_]. rewrite <- app_assoc. split; [reflexivity|].
        split; [reflexivity|simpl; lia].
      * intros result H. discriminate H.
  - cbn [fst snd session trace]. split; [reflexivity|]. split.
    + exists []. split; [reflexivity|]. split; [reflexivity|simpl; lia].
    + intros result H. discriminate H.
Qed.

End OneShotMore.

(** ** verifyCreate2 *)
Section Create2More.
Context {U : Util} {K : Core} {World : Type}
        {VAL : IValidationService World}
        {C2 : ICreate2Service World}.

Ltac c2_back :=
  intros [f0 [w0 [r0 [u0 [Hf0 [Hc0 [Hi0 [Ht0 _]]]]]]]];
  injection Hf0 as <-;
  match goal with
  | Hcheck : checkFiles _ _ = (_, _) |- _ =>
      rewrite Hcheck in Hc0;
      first [discriminate Hc0
            | injection Hc0 as; subst; simpl in *; congruence]
  end.

(** [verifyCreate2] calls the service exactly when the request has files,
    [checkFiles] returns at least one contract, every contract returned is
    valid (missing sources aside) and the first specifies a compiler
    version; it calls it with that first contract and the request's
    deployer, salt and constructor arguments (none if not given), after
    [checkFiles]; and "ok" is sent only after such a call. *)
Theorem verifyCreate2_calls_service (req : Create2Request) (w : World)
  (c : CheckedContract) (deployer slt : string) (args : list string) :
  (In (C2Verify c deployer slt args) (create2Events req w)
   <-> exists files w1 rest unused,
         body_files req = Some files
         /\ checkFiles w (extractFilesFromJSON files)
            = (w1, Ok (c :: rest, unused))
         /\ invalidContracts (c :: rest) = []
         /\ truthy (compilerVersion c) = true
         /\ deployer = deployerAddress req
         /\ slt = salt req
         /\ args = match constructorArgs req with
                   | Some a => a
                   | None => []
                   end)
  /\ (create2Outcome req w = Done (Some C2Ok) ->
      exists c', In (C2Verify c' (deployerAddress req) (salt req)
                       match constructorArgs req with
                       | Some a => a
                       | None => []
                       end)
                    (create2Events req w)).
Proof.
  unfold create2Events, create2Outcome, verifyCreate2.
  destruct (body_files req) as [files|].
  2:{ destruct (truthy (baseContract req)); simpl; split;
        try discriminate;
        (split; [contradiction|]);
        intros [f [w1 [r [u [H _]]]]]; discriminate. }
  destruct (checkFiles w (extractFilesFromJSON files))
    as [w1 [[cs unused]|e]] eqn:Hcheck.
  2:{ simpl. split; [|discriminate]. split.
      - intros [H|[]]. discriminate.
      - c2_back. }
  destruct (invalidContracts cs) as [|bad bads] eqn:Hinv.
  2:{ simpl. split; [|discriminate]. split.
      - intros [H|[]]. discriminate.
      - c2_back. }
  destruct cs as [|c0 rest].
  { simpl. split; [|discriminate]. split.
    - intros [H|[]]. discriminate.
    - c2_back. }
  destruct (truthy (compilerVersion c0)) eqn:Hcv; simpl negb; cbv iota.
  2:{ simpl. split; [|discriminate]. split.
      - intros [H|[]]. discriminate.
      - c2_back. }
  destruct (serviceVerifyCreate2 w1 c0 (deployerAddress req) (salt req) _)
    as [w2 [[]|e]]; cbn [fst snd]; split; try discriminate.
  - split.
    + intros [H|[H|[]]]; [discriminate|]. injection H as <- <- <- <-.
      exists files, w1, rest, unused. auto 10.
    + intros [f [w3 [r [u [Hf [Hc [_ [_ [-> [-> ->]]]]]]]]]].
      injection Hf as <-. rewrite Hcheck in Hc.
      injection Hc as _ Hc0 _ _. subst c0. right. now left.
  - intros _. exists c0. right. now left.
  - split.
    + intros [H|[H|[]]]; [discriminate|]. injection H as <- <- <- <-.
      exists files, w1, rest, unused. auto 10.
    + intros [f [w3 [r [u [Hf [Hc [_ [_ [-> [-> ->]]]]]]]]]].
      injection Hf as <-. rewrite Hcheck in Hc.
      injection Hc as _ Hc0 _ _. subst c0. right. now left.
Qed.

(** Two ends of [verifyCreate2] that are not a [BadRequestError]: when
    [checkFiles] returns no contract, reading the compiler version of the
    first throws a [TypeError]; when the request has a base contract and no
    files, nothing is called and no response is sent. *)
Theorem verifyCreate2_edges (req : Create2Request) (w : World) :
  (forall files w1 unused,
     body_files req = Some files ->
     checkFiles w (extractFilesFromJSON files) = (w1, Ok ([], unused)) ->
     verifyCreate2 req w
     = (w1, [C2CheckFiles (extractFilesFromJSON files)],
        Raised undefinedContract))
  /\ (body_files req = None ->
      truthy (baseContract req) = true ->
      verifyCreate2 req w = (w, [], Done None)).
Proof.
  split.
  - intros files w1 unused Hf Hc. unfold verifyCreate2. rewrite Hf, Hc.
    reflexivity.
  - intros Hf Hb. unfold verifyCreate2. now rewrite Hf, Hb.
Qed.

End Create2More.

(** ** The legacy endpoint *)
Section LegacyMore.
Context {U : Util} {K : Core} {X : Express} {World : Type}
        {VER : IVerificationService World}
        {VAL : IValidationService World}.

Lemma injectCalls_lookupEvents (addresses : list string) (chain : string) :
  injectCalls (lookupEvents addresses chain) = 0.
Proof.
  unfold injectCalls, lookupEvents.
  induction addresses as [|a r IH]; simpl; auto.
Qed.

(** The loop over the addresses stops at the first one with a stored
    result. *)
Lemma storedResult_first (w : World) (tr : list Event)
  (pre post : list string) (a chain : string) (m : Match)
  (rest : list Match) :
  (forall b, In b pre -> findByAddress w (Some b) (Some chain) = Ok []) ->
  findByAddress w (Some a) (Some chain) = Ok (m :: rest) ->
  storedResult w tr (pre ++ a :: post) chain
  = (tr ++ lookupEvents (pre ++ [a]) chain, Ok (Some (m :: rest))).
Proof.
  revert tr. induction pre as [|b pre IH]; intros tr Hpre Ha; simpl.
  - now rewrite Ha.
  - rewrite (Hpre b (or_introl eq_refl)).
    rewrite IH; [|intros x Hx; apply Hpre; now right|assumption].
    now rewrite <- app_assoc.
Qed.

(** What the loop leaves in the trace, and what its finding nothing
    means. *)
Lemma storedResult_trace (w : World) (tr : list Event)
  (addresses : list string) (chain : string) :
  exists looks,
    fst (storedResult w tr addresses chain) = tr ++ looks
    /\ injectCalls looks = 0
    /\ (snd (storedResult w tr addresses chain) = Ok None ->
        forall a, In a addresses ->
          findByAddress w (Some a) (Some chain) = Ok []).
Proof.
  revert tr. induction addresses as [|a r IH]; intros tr; simpl.
  - exists []. rewrite app_nil_r. repeat split. intros _ a [].
  - destruct (findByAddress w (Some a) (Some chain)) as [[|m rest]|e] eqn:F.
    + destruct (IH (tr ++ [EvFindByAddress (Some a) (Some chain)]))
        as [looks [Htr [Hn Hall]]].
      exists (EvFindByAddress (Some a) (Some chain) :: looks).
      rewrite Htr, <- app_assoc. split; [reflexivity|]. split; [exact Hn|].
      intros Hnone b [<-|Hb]; [exact F|now apply Hall].
    + eexists [_]. simpl. split; [reflexivity|]. split; [reflexivity|].
      discriminate.
    + eexists [_]. simpl. split; [reflexivity|]. split; [reflexivity|].
      discriminate.
Qed.

(** When an address of the request has a stored result, the endpoint
    answers with the result of the first such address and calls neither
    [checkFiles] nor [inject]; the addresses after it are not looked up. *)
Theorem legacy_answers_stored_result (req : LegacyRequest) (w : World)
  (tr : list Event) (pre post : list string) (a : string) (m : Match)
  (rest : list Match) :
  legacy_addresses req = pre ++ a :: post ->
  (forall b, In b pre ->
     findByAddress w (Some b) (Some (legacy_chain req)) = Ok []) ->
  findByAddress w (Some a) (Some (legacy_chain req)) = Ok (m :: rest) ->
  sendThrows [] = None ->
  legacyVerifyEndpoint req w tr
  = mkReply w (tr ++ lookupEvents (pre ++ [a]) (legacy_chain req))
      [mkSent 200 (ResultBody (m :: rest))] (Done tt).
Proof.
  intros Haddr Hpre Ha Hsend. unfold legacyVerifyEndpoint.
  rewrite Haddr, (storedResult_first _ _ _ _ _ _ _ _ Hpre Ha).
  unfold sendLast, resSend. now rewrite Hsend.
Qed.

Lemma sendLast_trace (w : World) (tr : list Event) (sent : list Sent)
  (code : nat) (body : Payload) :
  reply_trace (sendLast w tr sent code body) = tr
  /\ reply_world (sendLast w tr sent code body) = w.
Proof.
  unfold sendLast, resSend. destruct (sendThrows sent); auto.
Qed.

(** The last [try] block calls [inject] once, or twice when the first call
    returned [extra-file-input-bug]. *)
Lemma injectLegacy_trace (w : World) (tr : list Event) (d : InputData)
  (files : list PathBuffer) :
  exists new,
    reply_trace (injectLegacy w tr d files) = tr ++ EvInject d :: new
    /\ injectCalls new <= 1.
Proof.
  unfold injectLegacy, sendError.
  destruct (inject w d) as [w1 [m1|e1]].
  2:{ exists []. rewrite (proj1 (sendLast_trace _ _ _ _ _)). auto. }
  destruct (statusIs (match_status m1) "extra-file-input-bug").
  2:{ exists []. unfold resSend. destruct (sendThrows []);
        [rewrite (proj1 (sendLast_trace _ _ _ _ _))|]; auto. }
  destruct (useAllSources w1 (input_contract d) files) as [w2 [cAll|e2]].
  2:{ eexists [_]. rewrite (proj1 (sendLast_trace _ _ _ _ _)).
      rewrite <- app_assoc. split; [reflexivity|].
      unfold injectCalls. simpl. lia. }
  eexists [_; _].
  assert (Hn : injectCalls
            [EvUseAllSources (input_contract d) files;
             EvInject (mkInputData (addresses d) (chain d) cAll)] <= 1)
    by (unfold injectCalls; simpl; lia).
  split; [|exact Hn].
  destruct (inject w2 _) as [w3 [m2|e3]].
  2:{ rewrite (proj1 (sendLast_trace _ _ _ _ _)). now rewrite <- !app_assoc. }
  unfold resSend.
  destruct (statusIs (match_status m2) "perfect");
    repeat (match goal with
            | |- context [sendThrows ?s] => destruct (sendThrows s)
            end);
    try rewrite (proj1 (sendLast_trace _ _ _ _ _));
    cbn [reply_trace]; now rewrite <- !app_assoc.
Qed.

(** After a first [extra-file-input-bug], the legacy endpoint retries once
    with all the request's files, and takes the retry's result only when it
    is [perfect]: for any other retry result, [partial] included, all it
    sends is the first result. When the retry is [perfect] it sends the
    retry's result first and then tries to send the first result as well;
    on a response that refuses a second send, the handler ends by an
    exception after that one answer. *)
Theorem injectLegacy_takes_perfect_retry_only (w w1 w2 w3 : World)
  (tr : list Event) (d : InputData) (files : list PathBuffer)
  (m1 m2 : Match) (cAll : CheckedContract) :
  sendThrows [] = None ->
  inject w d = (w1, Ok m1) ->
  match_status m1 = Some "extra-file-input-bug" ->
  useAllSources w1 (input_contract d) files = (w2, Ok cAll) ->
  inject w2 (mkInputData (addresses d) (chain d) cAll) = (w3, Ok m2) ->
  reply_trace (injectLegacy w tr d files)
    = tr ++ [EvInject d; EvUseAllSources (input_contract d) files;
             EvInject (mkInputData (addresses d) (chain d) cAll)]
  /\ (match_status m2 <> Some "perfect" ->
      reply_sent (injectLegacy w tr d files) = [mkSent 200 (ResultBody [m1])]
      /\ reply_outcome (injectLegacy w tr d files) = Done tt)
  /\ (match_status m2 = Some "perfect" ->
      hd_error (reply_sent (injectLegacy w tr d files))
        = Some (mkSent 200 (ResultBody [m2]))
      /\ ((forall sent, sent <> [] -> sendThrows sent <> None) ->
          reply_sent (injectLegacy w tr d files)
            = [mkSent 200 (ResultBody [m2])]
          /\ exists t, reply_outcome (injectLegacy w tr d files) = Raised t)).
Proof.
  intros Hsend Hinj1 Hst1 Huse Hinj2.
  unfold injectLegacy. rewrite Hinj1, (proj2 (statusIs_true _ _) Hst1).
  rewrite Huse, Hinj2. unfold resSend, sendError, sendLast, resSend.
  destruct (statusIs (match_status m2) "perfect") eqn:P.
  - apply statusIs_true in P. rewrite Hsend. simpl app.
    split; [|split; [congruence|intros _]].
    + destruct (sendThrows [mkSent 200 (ResultBody [m2])]);
        [destruct (sendThrows [mkSent 200 (ResultBody [m2])])|];
        cbn [reply_trace]; now rewrite <- !app_assoc.
    + split.
      * destruct (sendThrows [mkSent 200 (ResultBody [m2])]) eqn:S2;
          [rewrite S2|]; reflexivity.
      * intros Hrefuse.
        destruct (sendThrows [mkSent 200 (ResultBody [m2])]) eqn:S2.
        -- rewrite S2. cbn [reply_sent reply_outcome]. eauto.
        -- exfalso. apply (Hrefuse [mkSent 200 (ResultBody [m2])]);
             [discriminate|exact S2].
  - rewrite Hsend. simpl app. cbn [reply_trace reply_sent reply_outcome].
    split; [now rewrite <- !app_assoc|]. split; [auto|].
    intros Hp. apply statusIs_true in Hp. congruence.
Qed.

(** The legacy endpoint calls [inject] at most twice, and at all only when
    no address of the request has a stored result, the request has files,
    [checkFiles] returned, every contract it returned is valid (missing
    sources aside), and the contract verified, one of those returned,
    specifies a compiler version; the first call carries that contract
    with the request's addresses and chain. *)
Theorem legacy_inject_guarded (req : LegacyRequest) (w : World)
  (tr : list Event) :
  exists new,
    reply_trace (legacyVerifyEndpoint req w tr) = tr ++ new
    /\ injectCalls new <= 2
    /\ (0 < injectCalls new ->
        exists files w1 cs unused c,
          (forall a, In a (legacy_addresses req) ->
             findByAddress w (Some a) (Some (legacy_chain req)) = Ok [])
          /\ legacy_files req = Some files
          /\ checkFiles w files = (w1, Ok (cs, unused))
          /\ invalidContracts cs = []
          /\ In c cs
          /\ truthy (compilerVersion c) = true
          /\ In (EvInject (mkInputData (map Some (legacy_addresses req))
                             (Some (legacy_chain req)) c)) new).
Proof.
  unfold legacyVerifyEndpoint.
  destruct (storedResult_trace w tr (legacy_addresses req) (legacy_chain req))
    as [looks [Htr [Hn Hnone]]].
  destruct (storedResult w tr (legacy_addresses req) (legacy_chain req))
    as [tr1 [[result|]|e]]; simpl in Htr, Hnone; subst tr1.
  - exists looks. rewrite (proj1 (sendLast_trace _ _ _ _ _)).
    split; [reflexivity|]. split; lia.
  - specialize (Hnone eq_refl).
    destruct (legacy_files req) as [files|].
    2:{ exists looks. split; [reflexivity|]. split; lia. }
    assert (Hquiet : injectCalls (looks ++ [EvCheckFiles files]) = 0)
      by (rewrite injectCalls_app, Hn; reflexivity).
    destruct (checkFiles w files) as [w1 [[cs unused]|e]] eqn:Hcheck.
    2:{ exists (looks ++ [EvCheckFiles files]). cbn [reply_trace].
        rewrite app_assoc. split; [reflexivity|]. split; lia. }
    destruct (invalidContracts cs) as [|bad bads] eqn:Hinv.
    2:{ exists (looks ++ [EvCheckFiles files]). cbn [reply_trace].
        rewrite app_assoc. split; [reflexivity|]. split; lia. }
    destruct (negb (Nat.eqb (length cs) 1)
              && negb (chosenTruthy (chosenContract req))).
    { exists (looks ++ [EvCheckFiles files]).
      rewrite (proj1 (sendLast_trace _ _ _ _ _)), app_assoc.
      split; [reflexivity|]. split; lia. }
    destruct (nth_error cs _) as [c|] eqn:Hnth.
    2:{ exists (looks ++ [EvCheckFiles files]). cbn [reply_trace].
        rewrite app_assoc. split; [reflexivity|]. split; lia. }
    destruct (truthy (compilerVersion c)) eqn:Hcv; simpl negb; cbv iota.
    2:{ exists (looks ++ [EvCheckFiles files]). cbn [reply_trace].
        rewrite app_assoc. split; [reflexivity|]. split; lia. }
    destruct (injectLegacy_trace w1 ((tr ++ looks) ++ [EvCheckFiles files])
                (mkInputData (map Some (legacy_addresses req))
                   (Some (legacy_chain req)) c) files)
      as [new [Htr Hle]].
    eexists (looks ++ [EvCheckFiles files] ++ EvInject _ :: new).
    rewrite Htr. split; [now rewrite <- !app_assoc|].
    rewrite !injectCalls_app, Hn.
    change (injectCalls [EvCheckFiles files]) with 0.
    change (injectCalls (EvInject ?d :: new)) with (S (injectCalls new)).
    split; [simpl; lia|]. intros _.
    exists files, w1, cs, unused, c.
    split; [exact Hnone|]. split; [reflexivity|]. split; [exact Hcheck|].
    split; [exact Hinv|]. split; [eapply nth_error_In; exact Hnth|].
    split; [exact Hcv|].
    apply in_or_app. right. apply in_or_app. right. now left.
  - exists looks. split; [reflexivity|]. split; lia.
Qed.

End LegacyMore.

(** * More concrete runs *)
Module MoreRuns.
Import Example ExampleMore.

(** A second upload keeps the first file and counts one new file. *)
Lemma second_upload_keeps_first :
  JsObj.get "M"
    (storedFiles
       (mkSession (Some [("M", mkPathContent "metadata.json" "M");
                         ("a", mkPathContent "A.sol" "a")]) None None))
  = Some (mkPathContent "metadata.json" "M").
Proof.
  exact (proj1 (@saveFiles_keeps_stored_files util
                  [mkPathContent "A.sol" "a"]
                  (mkSession (Some [("M", mkPathContent "metadata.json" "M")])
                     None None)
                  (mkSession (Some [("M", mkPathContent "metadata.json" "M");
                                    ("a", mkPathContent "A.sol" "a")])
                     None None)
                  1%N eq_refl)
               "M" (mkPathContent "metadata.json" "M") eq_refl).
Defined.

Lemma upload_within_cap :
  (sessionSize
     (mkSession (Some [("M", mkPathContent "metadata.json" "M");
                       ("a", mkPathContent "A.sol" "a")]) None None)
   <= MAX_SESSION_SIZE)%N.
Proof.
  exact (proj2 (@saveFiles_result_within_cap util
                  [mkPathContent "A.sol" "a"]
                  (mkSession (Some [("M", mkPathContent "metadata.json" "M")])
                     None None)
                  (mkSession (Some [("M", mkPathContent "metadata.json" "M");
                                    ("a", mkPathContent "A.sol" "a")])
                     None None)
                  1%N eq_refl)).
Defined.

Lemma assembly_keeps_bound_candidate :
  exists cw,
    JsObj.get "M"
      (storedWrappers
         (session (@validateContracts util Outside validation verifiedState)))
      = Some cw
    /\ sameButSources boundWrapper cw.
Proof.
  exact (proj1 (@validateContracts_keeps_candidates util Outside validation
                  verifiedState "M" boundWrapper eq_refl)).
Defined.

Lemma assembly_inserts_candidate :
  JsObj.get "M"
    (storedWrappers
       (session (@validateContracts util Outside validation uploadedState)))
  = Some looseWrapper.
Proof.
  destruct (@validateContracts_inserts_bare_wrapper util Outside validation
              uploadedState (mkOutside [] 1)
              [contract looseWrapper] [] (contract looseWrapper)
              eq_refl (or_introl eq_refl) eq_refl)
    as [[c' [[<-|[]] [_ Hget]]] _].
  exact Hget.
Defined.

Lemma example_lookup_returns (w : Outside) (a c : option string) :
  exists found, @findByAddress Outside verification w a c = Ok found.
Proof. simpl. destruct (isStored w a c); eauto. Defined.

Lemma pass_returns :
  snd (@verifyValidated util Outside verification validation remote
         ["M"] unverifiedState) = Ok tt.
Proof.
  apply (@verifyValidated_returns util Outside verification validation remote
           ["M"] unverifiedState example_lookup_returns).
  intros id [<-|[]]. simpl. now left.
Defined.

Lemma example_gate_needs_address (cw : ContractWrapper) :
  truthy (address cw) = false -> @isVerifiable util cw = false.
Proof.
  intros H. simpl. rewrite H.
  destruct (JsObj.isEmpty (missing (contract cw))
            && JsObj.isEmpty (invalid (contract cw))); reflexivity.
Defined.

Lemma pass_without_target_keeps_status :
  exists cw',
    JsObj.get "M"
      (storedWrappers
         (session (fst (@verifyValidated util Outside verification validation
                          remote ["M"] looseState))))
      = Some cw'
    /\ status cw' = None.
Proof.
  destruct (proj2 (@verifyValidated_without_target util Outside verification
                     validation remote ["M"] looseState
                     example_gate_needs_address
                     ltac:(intros id cw H;
                           destruct (String.eqb id "M") eqn:E;
                           simpl in H; rewrite E in H;
                           [injection H as <-; reflexivity|discriminate]))
              "M" looseWrapper eq_refl)
    as [cw' [Hget [_ [_ [Hst _]]]]].
  exists cw'. split; [exact Hget|exact Hst].
Defined.

Lemma inject_failure_recorded :
  recordedError
    (fst (@verifyOne util Outside downVerification validation remote
            unverifiedState "M"))
    "M" (mkError ServiceError "node unreachable").
Proof.
  exact (proj2 (proj1 (@verifyOne_records_errors util Outside downVerification
                         validation remote unverifiedState "M" boundWrapper
                         (mkOutside [] 0) [] tokenContract
                         eq_refl eq_refl eq_refl eq_refl)
                  (mkOutside [] 0) (mkError ServiceError "node unreachable")
                  eq_refl)).
Defined.

Lemma upload_validates_both_files :
  exists rest,
    trace (fst (@addInputFilesEndpoint util Outside verification validation
                  remote firstUpload freshState))
    = EvCheckFiles [mkPathBuffer "metadata.json" "M";
                    mkPathBuffer "A.sol" "a"] :: rest.
Proof.
  destruct (@addInputFilesEndpoint_validates_whole_session util Outside
              verification validation remote firstUpload freshState
              (mkSession (Some [("M", mkPathContent "metadata.json" "M");
                                ("a", mkPathContent "A.sol" "a")])
                 None None)
              2%N eq_refl ltac:(discriminate))
    as [added [rest [_ [_ [_ [Htr _]]]]]].
  exists rest. exact Htr.
Defined.

Lemma stray_entry_changes_nothing :
  JsObj.keys
    (storedWrappers
       (session
          (fst (@verifyValidatedEndpoint util Outside verification validation
                  remote [strayEntry] verifiedState))))
  = ["M"]
  /\ JsObj.get "M"
       (storedWrappers
          (session
             (fst (@verifyValidatedEndpoint util Outside verification
                     validation remote [strayEntry] verifiedState))))
     = Some boundWrapper.
Proof.
  destruct (@verifyValidatedEndpoint_frame util Outside verification
              validation remote [strayEntry] verifiedState
              ltac:(intros rc [<-|[]]; reflexivity))
    as [Hkeys [Hother _]].
  split; [exact Hkeys|].
  apply (Hother "M"). intros [H|[]]. discriminate H.
Defined.


Lemma etherscan_nothing_new_rejected :
  snd (@verifyFromEtherscanWithSession util Outside verification validation
         remote "1" "0xabc" etherscanState)
  = Throw (mkError BadRequestError "The contract didn't add any new file").
Proof.
  rewrite (@etherscan_session_nothing_new util Outside verification validation
             remote "1" "0xabc" etherscanState (mkOutside [] 0)
             [("A.sol", "a"); ("B.sol", "b")] "etherscan metadata" eq_refl).
  - reflexivity.
  - intros pc [<-|[<-|[<-|[]]]]; reflexivity.
  - vm_compute. discriminate.
Defined.

Lemma etherscan_binds_earlier_candidate :
  targetIn
    (storedWrappers
       (session (fst (@verifyFromEtherscanWithSession util Outside
                        verification validation remote "1" "0xabc"
                        looseState))))
    "M" (Some "0xabc") (Some "1").
Proof.
  refine (@etherscan_session_binds_untargeted util Outside verification
            validation remote "1" "0xabc" looseState (mkOutside [] 1)
            [("A.sol", "a"); ("B.sol", "b")] "etherscan metadata"
            _ 2%N "M" _ eq_refl eq_refl _ eq_refl).
  discriminate.
Defined.

Lemma mapped_sources_of_example :
  getMappedSourcesFromJsonInput jsonSources = [("A.sol", "a"); ("C.sol", "c")].
Proof.
  rewrite getMappedSourcesFromJsonInput_keeps_contents; [reflexivity|].
  repeat constructor; simpl; intuition discriminate.
Defined.

Lemma perfect_lookup_of_example :
  @checkByAddresses Outside verification (mkOutside [("0xabc", "1")] 0)
    lookupRequest
  = Ok [mkPerfectEntry "0xabc" (Some "perfect") (Some ["1"]);
        mkPerfectEntry "0xdef" (Some "false") None].
Proof.
  rewrite checkByAddresses_entries; [reflexivity|reflexivity|].
  repeat constructor; simpl; intuition discriminate.
Defined.

Lemma full_lookup_of_example :
  @checkAllByAddresses Outside verification (mkOutside [("0xabc", "1")] 0)
    lookupRequest
  = Ok [mkCheckEntry "0xabc" None (Some [("1", Some "perfect")]);
        mkCheckEntry "0xdef" (Some "false") None].
Proof.
  rewrite checkAllByAddresses_entries; [reflexivity|reflexivity|].
  repeat constructor; simpl; intuition discriminate.
Defined.

Lemma legacy_stored_result_sent :
  reply_sent
    (@legacyVerifyEndpoint util core express Outside verification validation
       legacyRequest (mkOutside [("0xabc", "1")] 0) [])
  = [mkSent 200 (ResultBody [perfectMatch (Some "0xabc")])].
Proof.
  rewrite (@legacy_answers_stored_result util core express Outside
             verification validation legacyRequest
             (mkOutside [("0xabc", "1")] 0) [] ["0xdef"] [] "0xabc"
             (perfectMatch (Some "0xabc")) [] eq_refl).
  - reflexivity.
  - intros b [<-|[]]. reflexivity.
  - reflexivity.
  - reflexivity.
Defined.

Lemma legacy_perfect_retry_then_throws :
  reply_sent
    (@injectLegacy express Outside verification validation
       (mkOutside [] 0) []
       (mkInputData [Some "0xabc"] (Some "1") tokenContract) legacyFiles)
  = [mkSent 200 (ResultBody [perfectMatch (Some "0xabc")])]
  /\ exists t,
       reply_outcome
         (@injectLegacy express Outside verification validation
            (mkOutside [] 0) []
            (mkInputData [Some "0xabc"] (Some "1") tokenContract) legacyFiles)
       = Raised t.
Proof.
  refine (proj2 (proj2 (proj2
            (@injectLegacy_takes_perfect_retry_only express Outside
               verification validation
               (mkOutside [] 0) (mkOutside [] 0) (mkOutside [] 0)
               (mkOutside [("0xabc", "1")] 0) []
               (mkInputData [Some "0xabc"] (Some "1") tokenContract)
               legacyFiles bugMatch (perfectMatch (Some "0xabc"))
               (setSources tokenContract
                  [("A.sol", "a"); ("B.sol", "b");
                   ("metadata.json", "M"); ("Lib.sol", "l")] [])
               eq_refl eq_refl eq_refl eq_refl eq_refl)) eq_refl) _).
  intros sent Hne. destruct sent; [contradiction|discriminate].
Defined.

End MoreRuns.
